(** * Ray/segment and ray/triangle intersection ([linalg.h])

    The header defines one macro, [between], and two pure functions,
    [line2seg2d] and [line2tri3d].  Both solve a small linear system by the
    adjugate-over-determinant formula and accept the solution under
    inclusive bounds, returning [NAN] otherwise.

    The functions are written once, over an interface [FloatOps] of the
    scalar operations the C code uses ([+ - * /], unary minus, [<=], [==],
    the literals [0.0f], [1.0f] and [NAN]).  Three instances are given:

    - [binary32]: IEEE-754 single precision, round to nearest even, every
      operator rounded once (no contraction into fused operations), [/]
      correctly rounded, [dot] evaluated as the sum of the products from
      left to right.  This is the meaning of the program.
    - [exactQ]: the same operations without rounding, on rationals
      extended with one undefined value.  This is the arithmetic in which
      the derivation in the header's comments is carried out.
    - [tracedOps]: [binary32] with a flag that records whether any
      operation rounded.  It serves to single out the calls of the program
      on which the two arithmetics agree. *)

From Stdlib Require Import ZArith QArith Qfield Bool Lia Lqa.
From Stdlib Require Import Floats.SpecFloat.

(** ** The scalar interface *)

Class FloatOps (F : Type) : Type := {
  fadd : F -> F -> F;
  fsub : F -> F -> F;
  fmul : F -> F -> F;
  fdiv : F -> F -> F;
  fneg : F -> F;
  fle  : F -> F -> bool;
  feq  : F -> F -> bool;
  fzero : F;
  fone  : F;
  NAN   : F
}.

(** ** OpenCL vector types

    [x2], [y2] stand for the components [.x] (also written [.s0]) and [.y]
    ([.s1]) of a [float2]; [x3], [y3], [z3] for [.x] ([.s0]), [.y] ([.s1])
    and [.z] ([.s2]) of a [float3]. *)

Record float2 (F : Type) : Type := Float2 { x2 : F; y2 : F }.
Record float3 (F : Type) : Type := Float3 { x3 : F; y3 : F; z3 : F }.

Arguments Float2 {F} _ _.
Arguments x2 {F} _.
Arguments y2 {F} _.
Arguments Float3 {F} _ _ _.
Arguments x3 {F} _.
Arguments y3 {F} _.
Arguments z3 {F} _.

Section Program.
Context {F : Type} {ops : FloatOps F}.

(** Component-wise subtraction, division of a vector by a scalar and the
    dot product, as OpenCL C defines them on [float2] and [float3]. *)
Definition sub2 (a b : float2 F) : float2 F :=
  Float2 (fsub (x2 a) (x2 b)) (fsub (y2 a) (y2 b)).

Definition divs2 (a : float2 F) (s : F) : float2 F :=
  Float2 (fdiv (x2 a) s) (fdiv (y2 a) s).

Definition dot2 (a b : float2 F) : F :=
  fadd (fmul (x2 a) (x2 b)) (fmul (y2 a) (y2 b)).

Definition sub3 (a b : float3 F) : float3 F :=
  Float3 (fsub (x3 a) (x3 b)) (fsub (y3 a) (y3 b)) (fsub (z3 a) (z3 b)).

Definition divs3 (a : float3 F) (s : F) : float3 F :=
  Float3 (fdiv (x3 a) s) (fdiv (y3 a) s) (fdiv (z3 a) s).

Definition dot3 (a b : float3 F) : F :=
  fadd (fadd (fmul (x3 a) (x3 b)) (fmul (y3 a) (y3 b))) (fmul (z3 a) (z3 b)).

(** [#define between(lower, x, upper) ((lower) <= (x) && (x) <= (upper))] *)
Definition between (lower x upper : F) : bool :=
  fle lower x && fle x upper.

(** [float line2seg2d(float2 origin, float2 direction, float2 p0, float2 p1)] *)
Definition line2seg2d (origin direction p0 p1 : float2 F) : F :=
  let A0 := direction in
  let A1 := sub2 p0 p1 in
  let det := fsub (fmul (x2 A0) (y2 A1)) (fmul (y2 A0) (x2 A1)) in
  if feq det fzero then NAN
  else
    let Ai0 := divs2 (Float2 (y2 A1) (fneg (x2 A1))) det in
    let Ai1 := divs2 (Float2 (fneg (y2 A0)) (x2 A0)) det in
    let B := sub2 p0 origin in
    let res := Float2 (dot2 Ai0 B) (dot2 Ai1 B) in
    if fle fzero (x2 res) && between fzero (y2 res) fone
    then x2 res else NAN.

(** [float line2tri3d(float3 origin, float3 direction,
                      float3 p0, float3 p1, float3 p2)] *)
Definition line2tri3d (origin direction p0 p1 p2 : float3 F) : F :=
  let A0 := direction in
  let A1 := sub3 p0 p1 in
  let A2 := sub3 p0 p2 in
  let det :=
    fadd (fsub (fmul (x3 A0) (fsub (fmul (y3 A1) (z3 A2)) (fmul (z3 A1) (y3 A2))))
               (fmul (y3 A0) (fsub (fmul (x3 A1) (z3 A2)) (fmul (z3 A1) (x3 A2)))))
         (fmul (z3 A0) (fsub (fmul (x3 A1) (y3 A2)) (fmul (y3 A1) (x3 A2)))) in
  if feq det fzero then NAN
  else
    let B := sub3 p0 origin in
    let Ai0 := divs3
      (Float3 (fmul fone (fsub (fmul (y3 A1) (z3 A2)) (fmul (z3 A1) (y3 A2))))
              (fmul (fneg fone) (fsub (fmul (x3 A1) (z3 A2)) (fmul (z3 A1) (x3 A2))))
              (fmul fone (fsub (fmul (x3 A1) (y3 A2)) (fmul (y3 A1) (x3 A2)))))
      det in
    let Ai1 := divs3
      (Float3 (fmul (fneg fone) (fsub (fmul (y3 A0) (z3 A2)) (fmul (z3 A0) (y3 A2))))
              (fmul fone (fsub (fmul (x3 A0) (z3 A2)) (fmul (z3 A0) (x3 A2))))
              (fmul (fneg fone) (fsub (fmul (x3 A0) (y3 A2)) (fmul (y3 A0) (x3 A2)))))
      det in
    let Ai2 := divs3
      (Float3 (fmul fone (fsub (fmul (y3 A0) (z3 A1)) (fmul (z3 A0) (y3 A1))))
              (fmul (fneg fone) (fsub (fmul (x3 A0) (z3 A1)) (fmul (z3 A0) (x3 A1))))
              (fmul fone (fsub (fmul (x3 A0) (y3 A1)) (fmul (y3 A0) (x3 A1)))))
      det in
    let res := Float3 (dot3 Ai0 B) (dot3 Ai1 B) (dot3 Ai2 B) in
    let in_triangle :=
      between fzero (y3 res) fone &&
      between fzero (z3 res) fone &&
      between fzero (fadd (y3 res) (z3 res)) fone in
    if fle fzero (x3 res) && in_triangle then x3 res else NAN.

(** *** The locals of a call, named

    [seg_det], [seg_res], [tri_det] and [tri_res] are the values the
    locals [det] and [res] take in a call; [line2seg2d_eq] and
    [line2tri3d_eq] below check that they are the ones the functions
    use. *)
Definition seg_det (direction p0 p1 : float2 F) : F :=
  let A0 := direction in
  let A1 := sub2 p0 p1 in
  fsub (fmul (x2 A0) (y2 A1)) (fmul (y2 A0) (x2 A1)).

Definition seg_res (origin direction p0 p1 : float2 F) : float2 F :=
  let A0 := direction in
  let A1 := sub2 p0 p1 in
  let det := seg_det direction p0 p1 in
  let Ai0 := divs2 (Float2 (y2 A1) (fneg (x2 A1))) det in
  let Ai1 := divs2 (Float2 (fneg (y2 A0)) (x2 A0)) det in
  let B := sub2 p0 origin in
  Float2 (dot2 Ai0 B) (dot2 Ai1 B).

Definition tri_det (direction p0 p1 p2 : float3 F) : F :=
  let A0 := direction in
  let A1 := sub3 p0 p1 in
  let A2 := sub3 p0 p2 in
  fadd (fsub (fmul (x3 A0) (fsub (fmul (y3 A1) (z3 A2)) (fmul (z3 A1) (y3 A2))))
             (fmul (y3 A0) (fsub (fmul (x3 A1) (z3 A2)) (fmul (z3 A1) (x3 A2)))))
       (fmul (z3 A0) (fsub (fmul (x3 A1) (y3 A2)) (fmul (y3 A1) (x3 A2)))).

Definition tri_res (origin direction p0 p1 p2 : float3 F) : float3 F :=
  let A0 := direction in
  let A1 := sub3 p0 p1 in
  let A2 := sub3 p0 p2 in
  let det := tri_det direction p0 p1 p2 in
  let B := sub3 p0 origin in
  let Ai0 := divs3
    (Float3 (fmul fone (fsub (fmul (y3 A1) (z3 A2)) (fmul (z3 A1) (y3 A2))))
            (fmul (fneg fone) (fsub (fmul (x3 A1) (z3 A2)) (fmul (z3 A1) (x3 A2))))
            (fmul fone (fsub (fmul (x3 A1) (y3 A2)) (fmul (y3 A1) (x3 A2)))))
    det in
  let Ai1 := divs3
    (Float3 (fmul (fneg fone) (fsub (fmul (y3 A0) (z3 A2)) (fmul (z3 A0) (y3 A2))))
            (fmul fone (fsub (fmul (x3 A0) (z3 A2)) (fmul (z3 A0) (x3 A2))))
            (fmul (fneg fone) (fsub (fmul (x3 A0) (y3 A2)) (fmul (y3 A0) (x3 A2)))))
    det in
  let Ai2 := divs3
    (Float3 (fmul fone (fsub (fmul (y3 A0) (z3 A1)) (fmul (z3 A0) (y3 A1))))
            (fmul (fneg fone) (fsub (fmul (x3 A0) (z3 A1)) (fmul (z3 A0) (x3 A1))))
            (fmul fone (fsub (fmul (x3 A0) (y3 A1)) (fmul (y3 A0) (x3 A1)))))
    det in
  Float3 (dot3 Ai0 B) (dot3 Ai1 B) (dot3 Ai2 B).

(** The acceptance tests of the two [return] statements. *)
Definition seg_accept (res : float2 F) : bool :=
  fle fzero (x2 res) && between fzero (y2 res) fone.

Definition tri_accept (res : float3 F) : bool :=
  fle fzero (x3 res) &&
  (between fzero (y3 res) fone &&
   between fzero (z3 res) fone &&
   between fzero (fadd (y3 res) (z3 res)) fone).
End Program.

(** ** Single precision *)

Definition prec : Z := 24.
Definition emax : Z := 128.

Definition f32_one : spec_float := Eval vm_compute in SFone prec emax.

#[export] Instance binary32 : FloatOps spec_float := {|
  fadd := SFadd prec emax;
  fsub := SFsub prec emax;
  fmul := SFmul prec emax;
  fdiv := SFdiv prec emax;
  fneg := SFopp;
  fle  := SFleb;
  feq  := SFeqb;
  fzero := S754_zero false;
  fone  := f32_one;
  NAN   := S754_nan
|}.

(** [isnan], the predicate a caller tests the result with. *)
Definition isnan (a : spec_float) : bool :=
  match a with S754_nan => true | _ => false end.

(** The single-precision value of a (small) integer literal. *)
Definition f32 (n : Z) : spec_float := binary_normalize prec emax n 0 false.

(** A value that is a zero of either sign, or NaN. *)
Definition zero_or_nan (a : spec_float) : bool :=
  match a with
  | S754_zero _ | S754_nan => true
  | _ => false
  end.

(** ** Exact arithmetic *)

Definition xQ : Type := option Q.

Definition xlift2 (f : Q -> Q -> Q) (a b : xQ) : xQ :=
  match a, b with
  | Some u, Some v => Some (f u v)
  | _, _ => None
  end.

Definition xdiv (a b : xQ) : xQ :=
  match a, b with
  | Some u, Some v => if Qeq_bool v 0 then None else Some (u / v)
  | _, _ => None
  end.

Definition xneg (a : xQ) : xQ :=
  match a with Some u => Some (- u) | None => None end.

Definition xtest (f : Q -> Q -> bool) (a b : xQ) : bool :=
  match a, b with
  | Some u, Some v => f u v
  | _, _ => false
  end.

#[export] Instance exactQ : FloatOps xQ := {|
  fadd := xlift2 Qplus;
  fsub := xlift2 Qminus;
  fmul := xlift2 Qmult;
  fdiv := xdiv;
  fneg := xneg;
  fle  := xtest Qle_bool;
  feq  := xtest Qeq_bool;
  fzero := Some 0;
  fone  := Some 1;
  NAN   := None
|}.

(** The rational a single-precision datum denotes; infinities and NaN
    denote none. *)
Definition SF2Q (a : spec_float) : xQ :=
  match a with
  | S754_zero _ => Some 0
  | S754_finite s m e =>
      Some (inject_Z (cond_Zopp s (Zpos m)) * Qpower 2 e)
  | S754_infinity _ | S754_nan => None
  end.

(** ** Vocabulary of the statements *)

(** Vectors with small integer coordinates, as the test cases write them. *)
Definition v2 (a b : Z) : float2 spec_float := Float2 (f32 a) (f32 b).
Definition v3 (a b c : Z) : float3 spec_float := Float3 (f32 a) (f32 b) (f32 c).

(** Some component of the vector is NaN. *)
Definition has_nan2 (v : float2 spec_float) : bool :=
  isnan (x2 v) || isnan (y2 v).

Definition has_nan3 (v : float3 spec_float) : bool :=
  isnan (x3 v) || isnan (y3 v) || isnan (z3 v).

(** [p0 == p1]: the two points are the same datum, or compare equal
    component by component (which identifies [+0] and [-0]). *)
Definition coincide (p0 p1 : float2 spec_float) : Prop :=
  p0 = p1 \/ (feq (x2 p0) (x2 p1) = true /\ feq (y2 p0) (y2 p1) = true).

(** A barycentric coordinate lying exactly on a bound, [0] or [1]. *)
Definition on_bound {F} {ops : FloatOps F} (a : F) : bool :=
  feq a fzero || feq a fone.

(** Rational vectors, and their embedding in the exact instance. *)
Definition q2 (a b : Z) : float2 Q := Float2 (inject_Z a) (inject_Z b).
Definition q3 (a b c : Z) : float3 Q :=
  Float3 (inject_Z a) (inject_Z b) (inject_Z c).

Definition inj2 (v : float2 Q) : float2 xQ := Float2 (Some (x2 v)) (Some (y2 v)).
Definition inj3 (v : float3 Q) : float3 xQ :=
  Float3 (Some (x3 v)) (Some (y3 v)) (Some (z3 v)).

(** [origin + k*direction = p0 + l*(p1-p0)], the relation of the header's
    comment on [line2seg2d], component by component. *)
Definition solves2d (origin direction p0 p1 : float2 Q) (k l : Q) : Prop :=
  x2 origin + k * x2 direction == x2 p0 + l * (x2 p1 - x2 p0) /\
  y2 origin + k * y2 direction == y2 p0 + l * (y2 p1 - y2 p0).

(** [origin + k*direction = p0 + l*(p1-p0) + m*(p2-p0)], the relation of
    the header's comment on [line2tri3d]. *)
Definition solves3d (origin direction p0 p1 p2 : float3 Q) (k l m : Q) : Prop :=
  x3 origin + k * x3 direction
    == x3 p0 + l * (x3 p1 - x3 p0) + m * (x3 p2 - x3 p0) /\
  y3 origin + k * y3 direction
    == y3 p0 + l * (y3 p1 - y3 p0) + m * (y3 p2 - y3 p0) /\
  z3 origin + k * z3 direction
    == z3 p0 + l * (z3 p1 - z3 p0) + m * (z3 p2 - z3 p0).

(** The single-precision datum [a] is finite and denotes the rational [q]. *)
Definition denotes (a : spec_float) (q : Q) : Prop :=
  match SF2Q a with
  | Some u => u == q
  | None => False
  end.

(** Two results of the exact instance are the same: both undefined, or
    both defined and equal as rationals. *)
Definition xeq (a b : xQ) : Prop :=
  match a, b with
  | Some u, Some v => u == v
  | None, None => True
  | _, _ => False
  end.

(** ** Calls in which no operation rounds

    To speak of the calls of the single-precision program in which no
    operation rounds, a third instance runs the single-precision operations
    and carries along a flag: the datum was computed from finite inputs by
    operations each of whose results is finite and denotes the exact
    result of the operation on what its operands denote. *)

Definition traced : Type := (spec_float * bool)%type.

(** [a] is finite and denotes the defined exact value [u]. *)
Definition same_value (a : spec_float) (u : xQ) : bool :=
  match SF2Q a, u with
  | Some x, Some y => Qeq_bool x y
  | _, _ => false
  end.

Definition track1 (f : spec_float -> spec_float) (g : xQ -> xQ)
    (p : traced) : traced :=
  let r := f (fst p) in
  (r, snd p && same_value r (g (SF2Q (fst p)))).

Definition track2 (f : spec_float -> spec_float -> spec_float)
    (g : xQ -> xQ -> xQ) (p q : traced) : traced :=
  let r := f (fst p) (fst q) in
  (r, snd p && snd q && same_value r (g (SF2Q (fst p)) (SF2Q (fst q)))).

#[export] Instance tracedOps : FloatOps traced := {|
  fadd := track2 (@fadd _ binary32) (@fadd _ exactQ);
  fsub := track2 (@fsub _ binary32) (@fsub _ exactQ);
  fmul := track2 (@fmul _ binary32) (@fmul _ exactQ);
  fdiv := track2 (@fdiv _ binary32) (@fdiv _ exactQ);
  fneg := track1 (@fneg _ binary32) (@fneg _ exactQ);
  fle p q := fle (fst p) (fst q);
  feq p q := feq (fst p) (fst q);
  fzero := (fzero, true);
  fone := (fone, true);
  NAN := (NAN, false)
|}.

(** An input of a call: flagged when it is finite. *)
Definition tr (a : spec_float) : traced := (a, same_value a (SF2Q a)).

Definition tr2 (v : float2 spec_float) : float2 traced :=
  Float2 (tr (x2 v)) (tr (y2 v)).

Definition tr3 (v : float3 spec_float) : float3 traced :=
  Float3 (tr (x3 v)) (tr (y3 v)) (tr (z3 v)).

(** The inputs of the call are finite and no operation that [res] depends
    on rounds. *)
Definition rounding_free_seg (origin direction p0 p1 : float2 spec_float) : bool :=
  let res := seg_res (tr2 origin) (tr2 direction) (tr2 p0) (tr2 p1) in
  snd (x2 res) && snd (y2 res).

Definition rounding_free_tri (origin direction p0 p1 p2 : float3 spec_float) : bool :=
  let res := tri_res (tr3 origin) (tr3 direction) (tr3 p0) (tr3 p1) (tr3 p2) in
  snd (x3 res) && snd (y3 res) && snd (z3 res).

Definition denotes2 (v : float2 spec_float) (w : float2 Q) : Prop :=
  denotes (x2 v) (x2 w) /\ denotes (y2 v) (y2 w).

Definition denotes3 (v : float3 spec_float) (w : float3 Q) : Prop :=
  denotes (x3 v) (x3 w) /\ denotes (y3 v) (y3 w) /\ denotes (z3 v) (z3 w).

(** A flagged datum denotes the exact value [u]. *)
Definition agrees (p : traced) (u : xQ) : Prop :=
  snd p = true -> exists q : Q, u = Some q /\ denotes (fst p) q.

(** ** Vocabulary of the further properties *)

(** An infinity or NaN. *)
Definition nonfinite (a : spec_float) : bool :=
  match a with
  | S754_infinity _ | S754_nan => true
  | _ => false
  end.

Definition has_nonfinite2 (v : float2 spec_float) : bool :=
  nonfinite (x2 v) || nonfinite (y2 v).

Definition has_nonfinite3 (v : float3 spec_float) : bool :=
  nonfinite (x3 v) || nonfinite (y3 v) || nonfinite (z3 v).

(** A zero of either sign. *)
Definition is_zero (a : spec_float) : bool :=
  match a with S754_zero _ => true | _ => false end.

Definition zero2 (v : float2 spec_float) : bool :=
  is_zero (x2 v) && is_zero (y2 v).

Definition zero3 (v : float3 spec_float) : bool :=
  is_zero (x3 v) && is_zero (y3 v) && is_zero (z3 v).

(** [p == q] on [float3], as [coincide] on [float2]. *)
Definition coincide3 (p q : float3 spec_float) : Prop :=
  p = q \/
  (feq (x3 p) (x3 q) = true /\ feq (y3 p) (y3 q) = true /\
   feq (z3 p) (z3 q) = true).

(** [-v], component by component. *)
Definition neg2 (v : float2 spec_float) : float2 spec_float :=
  Float2 (fneg (x2 v)) (fneg (y2 v)).

Definition neg3 (v : float3 spec_float) : float3 spec_float :=
  Float3 (fneg (x3 v)) (fneg (y3 v)) (fneg (z3 v)).

(** [b] is [-a], or both are zeros (of any signs): what negating the
    operands of a sum or difference does to its rounded result. *)
Definition opposite (a b : spec_float) : Prop :=
  b = fneg a \/ (is_zero a = true /\ is_zero b = true).

(** A hit at parameter [k]: a solution of the relation of the header's
    comment within the inclusive bounds. *)
Definition hit2d (origin direction p0 p1 : float2 Q) (k : Q) : Prop :=
  0 <= k /\
  exists l : Q, 0 <= l /\ l <= 1 /\ solves2d origin direction p0 p1 k l.

Definition hit3d (origin direction p0 p1 p2 : float3 Q) (k : Q) : Prop :=
  0 <= k /\
  exists l m : Q,
    0 <= l /\ l <= 1 /\ 0 <= m /\ m <= 1 /\ 0 <= l + m /\ l + m <= 1 /\
    solves3d origin direction p0 p1 p2 k l m.

(** The exact result [r] is defined and is the rational [k]. *)
Definition returns (r : xQ) (k : Q) : Prop :=
  match r with Some u => u == k | None => False end.

(** [c * v] on rational vectors. *)
Definition scale2 (c : Q) (v : float2 Q) : float2 Q :=
  Float2 (c * x2 v) (c * y2 v).

Definition scale3 (c : Q) (v : float3 Q) : float3 Q :=
  Float3 (c * x3 v) (c * y3 v) (c * z3 v).

(** ** The two functions in terms of their named locals *)

Lemma line2seg2d_eq {F} {ops : FloatOps F} (origin direction p0 p1 : float2 F) :
  line2seg2d origin direction p0 p1 =
  if feq (seg_det direction p0 p1) fzero then NAN
  else if seg_accept (seg_res origin direction p0 p1)
       then x2 (seg_res origin direction p0 p1) else NAN.
Proof. reflexivity. Qed.

Lemma line2tri3d_eq {F} {ops : FloatOps F} (origin direction p0 p1 p2 : float3 F) :
  line2tri3d origin direction p0 p1 p2 =
  if feq (tri_det direction p0 p1 p2) fzero then NAN
  else if tri_accept (tri_res origin direction p0 p1 p2)
       then x3 (tri_res origin direction p0 p1 p2) else NAN.
Proof. reflexivity. Qed.

(** Every return of either function is the literal [NAN] or the local
    [res.s0] of a call whose determinant test failed and whose acceptance
    test passed. *)
Section Cases.
Context {F : Type} {ops : FloatOps F}.

Lemma line2seg2d_cases (origin direction p0 p1 : float2 F) :
  line2seg2d origin direction p0 p1 = NAN \/
  (feq (seg_det direction p0 p1) fzero = false /\
   seg_accept (seg_res origin direction p0 p1) = true /\
   line2seg2d origin direction p0 p1 = x2 (seg_res origin direction p0 p1)).
Proof.
  rewrite line2seg2d_eq.
  destruct (feq (seg_det direction p0 p1) fzero); [now left|].
  destruct (seg_accept (seg_res origin direction p0 p1)); [right | left]; auto.
Qed.

Lemma line2tri3d_cases (origin direction p0 p1 p2 : float3 F) :
  line2tri3d origin direction p0 p1 p2 = NAN \/
  (feq (tri_det direction p0 p1 p2) fzero = false /\
   tri_accept (tri_res origin direction p0 p1 p2) = true /\
   line2tri3d origin direction p0 p1 p2 = x3 (tri_res origin direction p0 p1 p2)).
Proof.
  rewrite line2tri3d_eq.
  destruct (feq (tri_det direction p0 p1 p2) fzero); [now left|].
  destruct (tri_accept (tri_res origin direction p0 p1 p2)); [right | left]; auto.
Qed.

Lemma line2seg2d_singular (origin direction p0 p1 : float2 F) :
  feq (seg_det direction p0 p1) fzero = true ->
  line2seg2d origin direction p0 p1 = NAN.
Proof. intros H. rewrite line2seg2d_eq, H. reflexivity. Qed.

Lemma line2tri3d_singular (origin direction p0 p1 p2 : float3 F) :
  feq (tri_det direction p0 p1 p2) fzero = true ->
  line2tri3d origin direction p0 p1 p2 = NAN.
Proof. intros H. rewrite line2tri3d_eq, H. reflexivity. Qed.

Lemma line2seg2d_accepted (origin direction p0 p1 : float2 F) :
  feq (seg_det direction p0 p1) fzero = false ->
  seg_accept (seg_res origin direction p0 p1) = true ->
  line2seg2d origin direction p0 p1 = x2 (seg_res origin direction p0 p1).
Proof. intros H1 H2. rewrite line2seg2d_eq, H1, H2. reflexivity. Qed.

Lemma line2tri3d_accepted (origin direction p0 p1 p2 : float3 F) :
  feq (tri_det direction p0 p1 p2) fzero = false ->
  tri_accept (tri_res origin direction p0 p1 p2) = true ->
  line2tri3d origin direction p0 p1 p2 = x3 (tri_res origin direction p0 p1 p2).
Proof. intros H1 H2. rewrite line2tri3d_eq, H1, H2. reflexivity. Qed.
End Cases.

(** ** Facts of single-precision arithmetic *)

Lemma leb_nan_r (a : spec_float) : fle a NAN = false.
Proof. destruct a; reflexivity. Qed.

Lemma isnan_eq (a : spec_float) : isnan a = true -> a = NAN.
Proof. destruct a; simpl; congruence. Qed.

(** NaN is absorbing for the five arithmetic operations. *)
Lemma isnan_add_l (a b : spec_float) : isnan a = true -> isnan (fadd a b) = true.
Proof. destruct a; try discriminate; reflexivity. Qed.

Lemma isnan_add_r (a b : spec_float) : isnan b = true -> isnan (fadd a b) = true.
Proof. destruct b; try discriminate; destruct a; reflexivity. Qed.

Lemma isnan_sub_l (a b : spec_float) : isnan a = true -> isnan (fsub a b) = true.
Proof. destruct a; try discriminate; reflexivity. Qed.

Lemma isnan_sub_r (a b : spec_float) : isnan b = true -> isnan (fsub a b) = true.
Proof. destruct b; try discriminate; destruct a; reflexivity. Qed.

Lemma isnan_mul_l (a b : spec_float) : isnan a = true -> isnan (fmul a b) = true.
Proof. destruct a; try discriminate; reflexivity. Qed.

Lemma isnan_mul_r (a b : spec_float) : isnan b = true -> isnan (fmul a b) = true.
Proof. destruct b; try discriminate; destruct a; reflexivity. Qed.

Lemma isnan_div_l (a b : spec_float) : isnan a = true -> isnan (fdiv a b) = true.
Proof. destruct a; try discriminate; reflexivity. Qed.

Lemma isnan_div_r (a b : spec_float) : isnan b = true -> isnan (fdiv a b) = true.
Proof. destruct b; try discriminate; destruct a; reflexivity. Qed.

Lemma isnan_neg (a : spec_float) : isnan a = true -> isnan (fneg a) = true.
Proof. destruct a; try discriminate; reflexivity. Qed.

Create HintDb nan discriminated.
#[export] Hint Resolve isnan_add_l isnan_add_r isnan_sub_l isnan_sub_r
  isnan_mul_l isnan_mul_r isnan_div_l isnan_div_r isnan_neg : nan.

Lemma zero_or_nan_mul_r (a b : spec_float) :
  zero_or_nan b = true -> zero_or_nan (fmul a b) = true.
Proof. destruct b; try discriminate; destruct a; reflexivity. Qed.

Lemma zero_or_nan_sub (a b : spec_float) :
  zero_or_nan a = true -> zero_or_nan b = true -> zero_or_nan (fsub a b) = true.
Proof.
  destruct a as [sa|sa| |sa ma ea]; try discriminate;
    destruct b as [sb|sb| |sb mb eb]; try discriminate; try reflexivity.
  destruct sa, sb; reflexivity.
Qed.

Lemma zero_or_nan_add (a b : spec_float) :
  zero_or_nan a = true -> zero_or_nan b = true -> zero_or_nan (fadd a b) = true.
Proof.
  destruct a as [sa|sa| |sa ma ea]; try discriminate;
    destruct b as [sb|sb| |sb mb eb]; try discriminate; try reflexivity.
  destruct sa, sb; reflexivity.
Qed.

Lemma zero_or_nan_cases (a : spec_float) :
  zero_or_nan a = true -> feq a fzero = true \/ isnan a = true.
Proof. destruct a; try discriminate; [left | right]; reflexivity. Qed.

(** [a == b] on two finite data means the same sign, mantissa and
    exponent. *)
Lemma eqb_finite_inv sa ma ea sb mb eb :
  SFeqb (S754_finite sa ma ea) (S754_finite sb mb eb) = true ->
  sa = sb /\ ma = mb /\ ea = eb.
Proof.
  unfold SFeqb, SFcompare.
  destruct sa, sb; try discriminate;
    destruct (Z.compare_spec ea eb) as [He|He|He]; try discriminate;
    destruct (Pos.compare_cont Eq ma mb) eqn:Hm; try discriminate;
    intros _; apply Pos.compare_eq in Hm; auto.
Qed.

Lemma sub_diag_finite s m e :
  SFsub prec emax (S754_finite s m e) (S754_finite s m e) = S754_zero false.
Proof. unfold SFsub. rewrite Z.sub_diag. reflexivity. Qed.

(** The difference of two equal data is a zero, or NaN when they are
    infinite. *)
Lemma zero_or_nan_sub_eqb (a b : spec_float) :
  feq a b = true -> zero_or_nan (fsub a b) = true.
Proof.
  destruct a as [sa|sa| |sa ma ea], b as [sb|sb| |sb mb eb];
    try discriminate; try (destruct sa, sb; try discriminate; reflexivity).
  intros H. apply eqb_finite_inv in H. destruct H as (-> & -> & ->).
  cbn [fsub binary32]. rewrite sub_diag_finite. reflexivity.
Qed.

Lemma zero_or_nan_sub_diag (a : spec_float) : zero_or_nan (fsub a a) = true.
Proof.
  destruct a as [sa|sa| |sa ma ea]; try (destruct sa; reflexivity); try reflexivity.
  cbn [fsub binary32]. rewrite sub_diag_finite. reflexivity.
Qed.

(** Comparisons against the literals [0.0f] and [1.0f]. *)
Lemma eqb_leb (a b : spec_float) : feq a b = true -> fle a b = true.
Proof.
  cbn [feq fle binary32]. unfold SFeqb, SFleb.
  destruct (SFcompare a b) as [[]|]; congruence.
Qed.

Lemma eqb_zero_between (a : spec_float) :
  feq a fzero = true -> between fzero a fone = true.
Proof. destruct a as [s|s| |s m e]; try destruct s; try discriminate; reflexivity. Qed.

Lemma eqb_one_between (a : spec_float) :
  feq a fone = true -> between fzero a fone = true.
Proof.
  intros H. unfold between. rewrite (eqb_leb _ _ H), andb_true_r.
  destruct a as [s|s| |s m e]; try destruct s; try discriminate; reflexivity.
Qed.

Lemma leb_zero_not_ltb (a : spec_float) :
  fle fzero a = true -> SFltb a fzero = false.
Proof. destruct a as [s|s| |s m e]; try destruct s; try discriminate; reflexivity. Qed.


(** ** Single precision: what a non-NaN return tells *)

Lemma returned_seg (origin direction p0 p1 : float2 spec_float) :
  isnan (line2seg2d origin direction p0 p1) = false ->
  feq (seg_det direction p0 p1) fzero = false /\
  seg_accept (seg_res origin direction p0 p1) = true /\
  line2seg2d origin direction p0 p1 = x2 (seg_res origin direction p0 p1).
Proof.
  intros H. destruct (line2seg2d_cases origin direction p0 p1) as [E|E]; [|exact E].
  rewrite E in H. discriminate.
Qed.

Lemma returned_tri (origin direction p0 p1 p2 : float3 spec_float) :
  isnan (line2tri3d origin direction p0 p1 p2) = false ->
  feq (tri_det direction p0 p1 p2) fzero = false /\
  tri_accept (tri_res origin direction p0 p1 p2) = true /\
  line2tri3d origin direction p0 p1 p2 = x3 (tri_res origin direction p0 p1 p2).
Proof.
  intros H. destruct (line2tri3d_cases origin direction p0 p1 p2) as [E|E]; [|exact E].
  rewrite E in H. discriminate.
Qed.

(** A NaN determinant or a NaN [res.s0] makes the call return NaN. *)
Lemma seg_nan_res (origin direction p0 p1 : float2 spec_float) :
  isnan (x2 (seg_res origin direction p0 p1)) = true ->
  isnan (line2seg2d origin direction p0 p1) = true.
Proof.
  intros H. rewrite line2seg2d_eq.
  destruct (feq (seg_det direction p0 p1) fzero); [reflexivity|].
  unfold seg_accept. rewrite (isnan_eq _ H), leb_nan_r. reflexivity.
Qed.

Lemma tri_nan_res (origin direction p0 p1 p2 : float3 spec_float) :
  isnan (x3 (tri_res origin direction p0 p1 p2)) = true ->
  isnan (line2tri3d origin direction p0 p1 p2) = true.
Proof.
  intros H. rewrite line2tri3d_eq.
  destruct (feq (tri_det direction p0 p1 p2) fzero); [reflexivity|].
  unfold tri_accept. rewrite (isnan_eq _ H), leb_nan_r. reflexivity.
Qed.

Lemma seg_nan_det (origin direction p0 p1 : float2 spec_float) :
  isnan (seg_det direction p0 p1) = true ->
  isnan (line2seg2d origin direction p0 p1) = true.
Proof.
  intros H. apply seg_nan_res.
  unfold seg_res, dot2, divs2; cbn [x2 y2]. auto with nan.
Qed.

Lemma tri_nan_det (origin direction p0 p1 p2 : float3 spec_float) :
  isnan (tri_det direction p0 p1 p2) = true ->
  isnan (line2tri3d origin direction p0 p1 p2) = true.
Proof.
  intros H. apply tri_nan_res.
  unfold tri_res, dot3, divs3; cbn [x3 y3 z3]. auto with nan.
Qed.

(** A determinant that is a zero or NaN makes the call return NaN. *)
Lemma seg_zero_or_nan_det (origin direction p0 p1 : float2 spec_float) :
  zero_or_nan (seg_det direction p0 p1) = true ->
  isnan (line2seg2d origin direction p0 p1) = true.
Proof.
  intros H. destruct (zero_or_nan_cases _ H) as [E|E].
  - rewrite (line2seg2d_singular origin direction p0 p1 E). reflexivity.
  - now apply seg_nan_det.
Qed.

Lemma tri_zero_or_nan_det (origin direction p0 p1 p2 : float3 spec_float) :
  zero_or_nan (tri_det direction p0 p1 p2) = true ->
  isnan (line2tri3d origin direction p0 p1 p2) = true.
Proof.
  intros H. destruct (zero_or_nan_cases _ H) as [E|E].
  - rewrite (line2tri3d_singular origin direction p0 p1 p2 E). reflexivity.
  - now apply tri_nan_det.
Qed.

(** What the acceptance tests say of an accepted [res]. *)
Lemma seg_accept_inv (res : float2 spec_float) :
  seg_accept res = true ->
  fle fzero (x2 res) = true /\ SFltb (x2 res) fzero = false /\
  fle fzero (y2 res) = true /\ fle (y2 res) fone = true.
Proof.
  unfold seg_accept, between. intros H.
  repeat match goal with
         | H : _ && _ = true |- _ => apply andb_prop in H; destruct H
         end.
  auto using leb_zero_not_ltb.
Qed.

Lemma tri_accept_inv (res : float3 spec_float) :
  tri_accept res = true ->
  fle fzero (x3 res) = true /\ SFltb (x3 res) fzero = false /\
  fle fzero (y3 res) = true /\ fle (y3 res) fone = true /\
  fle fzero (z3 res) = true /\ fle (z3 res) fone = true /\
  fle fzero (fadd (y3 res) (z3 res)) = true /\
  fle (fadd (y3 res) (z3 res)) fone = true.
Proof.
  unfold tri_accept, between. intros H.
  repeat match goal with
         | H : _ && _ = true |- _ => apply andb_prop in H; destruct H
         end.
  repeat split; auto using leb_zero_not_ltb.
Qed.

(** ** Properties of the single-precision program *)

(** C3.  Whenever [line2seg2d] or [line2tri3d] returns a value that is not
    NaN, that value is the [k] computed in the call, it satisfies
    [0 <= k] (so it is not negative), and the barycentric coordinates of
    the same call satisfy the inclusive bounds: [0 <= l <= 1] for the
    segment; [0 <= l <= 1], [0 <= m <= 1] and [0 <= l + m <= 1] for the
    triangle, [l + m] being the single-precision sum the code tests. *)
Theorem returned_parameter_bounds :
  (forall origin direction p0 p1 : float2 spec_float,
     isnan (line2seg2d origin direction p0 p1) = false ->
     let res := seg_res origin direction p0 p1 in
     line2seg2d origin direction p0 p1 = x2 res /\
     fle fzero (x2 res) = true /\ SFltb (x2 res) fzero = false /\
     fle fzero (y2 res) = true /\ fle (y2 res) fone = true) /\
  (forall origin direction p0 p1 p2 : float3 spec_float,
     isnan (line2tri3d origin direction p0 p1 p2) = false ->
     let res := tri_res origin direction p0 p1 p2 in
     line2tri3d origin direction p0 p1 p2 = x3 res /\
     fle fzero (x3 res) = true /\ SFltb (x3 res) fzero = false /\
     fle fzero (y3 res) = true /\ fle (y3 res) fone = true /\
     fle fzero (z3 res) = true /\ fle (z3 res) fone = true /\
     fle fzero (fadd (y3 res) (z3 res)) = true /\
     fle (fadd (y3 res) (z3 res)) fone = true).
Proof.
  split.
  - intros origin direction p0 p1 H. cbv zeta.
    destruct (returned_seg origin direction p0 p1 H) as (_ & Hacc & Hret).
    split; [exact Hret | exact (seg_accept_inv _ Hacc)].
  - intros origin direction p0 p1 p2 H. cbv zeta.
    destruct (returned_tri origin direction p0 p1 p2 H) as (_ & Hacc & Hret).
    split; [exact Hret | exact (tri_accept_inv _ Hacc)].
Qed.

Lemma returned_parameter_bounds_witness :
  (isnan (line2seg2d (v2 0 0) (v2 1 0) (v2 2 (-1)) (v2 2 1)) = false /\
   fle fzero (y2 (seg_res (v2 0 0) (v2 1 0) (v2 2 (-1)) (v2 2 1))) = true) /\
  (isnan (line2tri3d (v3 0 0 0) (v3 0 0 1)
            (v3 (-1) (-1) 1) (v3 1 (-1) 1) (v3 0 1 1)) = false /\
   fle (z3 (tri_res (v3 0 0 0) (v3 0 0 1)
              (v3 (-1) (-1) 1) (v3 1 (-1) 1) (v3 0 1 1))) fone = true).
Proof.
  split; (split; [reflexivity|]).
  - apply (proj1 returned_parameter_bounds
             (v2 0 0) (v2 1 0) (v2 2 (-1)) (v2 2 1)). reflexivity.
  - apply (proj2 returned_parameter_bounds
             (v3 0 0 0) (v3 0 0 1) (v3 (-1) (-1) 1) (v3 1 (-1) 1) (v3 0 1 1)).
    reflexivity.
Defined.

(** C4.  In both functions, when the determinant compares equal to zero
    (the exact test [det == 0], with no tolerance: it is true of [+0] and
    [-0] only), the result is the NaN sentinel.  Both functions are total,
    and a call has no other outcome than its returned value, which is
    [NAN] or the computed [k]. *)
Theorem singular_system_returns_nan :
  (forall origin direction p0 p1 : float2 spec_float,
     feq (seg_det direction p0 p1) fzero = true ->
     line2seg2d origin direction p0 p1 = NAN /\
     isnan (line2seg2d origin direction p0 p1) = true) /\
  (forall origin direction p0 p1 p2 : float3 spec_float,
     feq (tri_det direction p0 p1 p2) fzero = true ->
     line2tri3d origin direction p0 p1 p2 = NAN /\
     isnan (line2tri3d origin direction p0 p1 p2) = true) /\
  (forall origin direction p0 p1 : float2 spec_float,
     line2seg2d origin direction p0 p1 = NAN \/
     line2seg2d origin direction p0 p1 = x2 (seg_res origin direction p0 p1)) /\
  (forall origin direction p0 p1 p2 : float3 spec_float,
     line2tri3d origin direction p0 p1 p2 = NAN \/
     line2tri3d origin direction p0 p1 p2
       = x3 (tri_res origin direction p0 p1 p2)) /\
  (forall a : spec_float,
     feq a fzero = true <-> a = S754_zero false \/ a = S754_zero true).
Proof.
  repeat split.
  7: { destruct a as [[]|[]| |[] m e]; try discriminate; auto. }
  7: { intros [->| ->]; reflexivity. }
  - apply line2seg2d_singular; assumption.
  - rewrite line2seg2d_singular; [reflexivity | assumption].
  - apply line2tri3d_singular; assumption.
  - rewrite line2tri3d_singular; [reflexivity | assumption].
  - intros origin direction p0 p1.
    destruct (line2seg2d_cases origin direction p0 p1) as [E|(_ & _ & E)]; auto.
  - intros origin direction p0 p1 p2.
    destruct (line2tri3d_cases origin direction p0 p1 p2) as [E|(_ & _ & E)]; auto.
Qed.

Lemma singular_system_returns_nan_witness :
  (feq (seg_det (v2 1 0) (v2 0 0) (v2 2 0)) fzero = true /\
   line2seg2d (v2 0 1) (v2 1 0) (v2 0 0) (v2 2 0) = NAN) /\
  (feq (tri_det (v3 0 0 1) (v3 0 0 0) (v3 0 0 1) (v3 0 0 2)) fzero = true /\
   line2tri3d (v3 1 1 0) (v3 0 0 1) (v3 0 0 0) (v3 0 0 1) (v3 0 0 2) = NAN).
Proof.
  split; (split; [reflexivity|]).
  - apply (proj1 singular_system_returns_nan
             (v2 0 1) (v2 1 0) (v2 0 0) (v2 2 0)). reflexivity.
  - apply (proj1 (proj2 singular_system_returns_nan)
             (v3 1 1 0) (v3 0 0 1) (v3 0 0 0) (v3 0 0 1) (v3 0 0 2)). reflexivity.
Defined.

(** C5.  For every ray, [line2seg2d] on a zero-length segment
    ([p0 == p1]) returns NaN, and [line2tri3d] on the collinear triangle
    [(0,0,0), (1,0,0), (2,0,0)] returns NaN. *)
Theorem degenerate_primitive_returns_nan :
  (forall origin direction p0 p1 : float2 spec_float,
     coincide p0 p1 ->
     isnan (line2seg2d origin direction p0 p1) = true) /\
  (forall origin direction : float3 spec_float,
     isnan (line2tri3d origin direction (v3 0 0 0) (v3 1 0 0) (v3 2 0 0)) = true).
Proof.
  split.
  - intros origin direction p0 p1 H.
    apply seg_zero_or_nan_det. unfold seg_det, sub2; cbn [x2 y2].
    assert (zero_or_nan (fsub (x2 p0) (x2 p1)) = true /\
            zero_or_nan (fsub (y2 p0) (y2 p1)) = true) as [Hx Hy].
    { destruct H as [->|[Hx Hy]].
      - split; apply zero_or_nan_sub_diag.
      - split; now apply zero_or_nan_sub_eqb. }
    apply zero_or_nan_sub; now apply zero_or_nan_mul_r.
  - intros origin direction.
    apply tri_zero_or_nan_det. unfold tri_det.
    set (A1 := sub3 (v3 0 0 0) (v3 1 0 0)).
    set (A2 := sub3 (v3 0 0 0) (v3 2 0 0)).
    apply zero_or_nan_add; [apply zero_or_nan_sub|];
      apply zero_or_nan_mul_r; reflexivity.
Qed.

Lemma degenerate_primitive_returns_nan_witness :
  coincide (v2 2 1) (v2 2 1) /\
  isnan (line2seg2d (v2 0 0) (v2 1 0) (v2 2 1) (v2 2 1)) = true.
Proof.
  split; [left; reflexivity|].
  apply (proj1 degenerate_primitive_returns_nan (v2 0 0) (v2 1 0) (v2 2 1) (v2 2 1)).
  left; reflexivity.
Defined.

(** C6.  The bounds are inclusive.  In a call whose determinant is not
    zero and whose computed [k] satisfies [0 <= k]: [line2seg2d] returns
    [k] when [l] compares equal to [0] or to [1]; [line2tri3d] returns [k]
    when one of [l], [m], [l + m] compares equal to [0] or to [1] and the
    bounds on the other two hold. *)
Theorem boundary_hits_accepted :
  (forall origin direction p0 p1 : float2 spec_float,
     let res := seg_res origin direction p0 p1 in
     feq (seg_det direction p0 p1) fzero = false ->
     fle fzero (x2 res) = true ->
     on_bound (y2 res) = true ->
     line2seg2d origin direction p0 p1 = x2 res) /\
  (forall origin direction p0 p1 p2 : float3 spec_float,
     let res := tri_res origin direction p0 p1 p2 in
     let l := y3 res in
     let m := z3 res in
     feq (tri_det direction p0 p1 p2) fzero = false ->
     fle fzero (x3 res) = true ->
     (on_bound l = true /\ between fzero m fone = true /\
      between fzero (fadd l m) fone = true) \/
     (between fzero l fone = true /\ on_bound m = true /\
      between fzero (fadd l m) fone = true) \/
     (between fzero l fone = true /\ between fzero m fone = true /\
      on_bound (fadd l m) = true) ->
     line2tri3d origin direction p0 p1 p2 = x3 res).
Proof.
  assert (Hb : forall a : spec_float,
             on_bound a = true -> between fzero a fone = true).
  { intros a H. apply orb_prop in H.
    destruct H; [now apply eqb_zero_between | now apply eqb_one_between]. }
  split.
  - intros origin direction p0 p1 res Hdet Hk Hl.
    apply line2seg2d_accepted; [exact Hdet|].
    fold res. unfold seg_accept. rewrite Hk, (Hb _ Hl). reflexivity.
  - intros origin direction p0 p1 p2 res l m Hdet Hk H.
    apply line2tri3d_accepted; [exact Hdet|].
    fold res. unfold tri_accept. fold l m. rewrite Hk.
    destruct H as [(H1 & H2 & H3)|[(H1 & H2 & H3)|(H1 & H2 & H3)]];
      [apply Hb in H1 | apply Hb in H2 | apply Hb in H3];
      rewrite H1, H2, H3; reflexivity.
Qed.

Lemma boundary_hits_accepted_witness :
  (feq (seg_det (v2 1 0) (v2 2 0) (v2 2 1)) fzero = false /\
   on_bound (y2 (seg_res (v2 0 0) (v2 1 0) (v2 2 0) (v2 2 1))) = true /\
   line2seg2d (v2 0 0) (v2 1 0) (v2 2 0) (v2 2 1) = f32 2) /\
  (feq (tri_det (v3 0 0 1) (v3 0 0 1) (v3 2 0 1) (v3 0 2 1)) fzero = false /\
   on_bound (fadd (y3 (tri_res (v3 1 1 0) (v3 0 0 1) (v3 0 0 1) (v3 2 0 1) (v3 0 2 1)))
                  (z3 (tri_res (v3 1 1 0) (v3 0 0 1) (v3 0 0 1) (v3 2 0 1) (v3 0 2 1))))
     = true /\
   line2tri3d (v3 1 1 0) (v3 0 0 1) (v3 0 0 1) (v3 2 0 1) (v3 0 2 1) = f32 1).
Proof.
  split; (split; [reflexivity|]); (split; [reflexivity|]).
  - rewrite (proj1 boundary_hits_accepted
               (v2 0 0) (v2 1 0) (v2 2 0) (v2 2 1));
      reflexivity.
  - rewrite (proj2 boundary_hits_accepted
               (v3 1 1 0) (v3 0 0 1) (v3 0 0 1) (v3 2 0 1) (v3 0 2 1));
      [reflexivity | reflexivity | reflexivity |].
    right; right. repeat split; reflexivity.
Defined.

(** C7.  The known-good and known-miss triangle cases: with origin
    [(0,0,0)] and triangle [(-1,-1,1), (1,-1,1), (0,1,1)], direction
    [(0,0,1)] gives [k = 1.0] and direction [(0,0,-1)] gives NaN, the
    candidate [k] being [-1.0], rejected by the test [0 <= k]. *)
Theorem known_cases_3d :
  line2tri3d (v3 0 0 0) (v3 0 0 1) (v3 (-1) (-1) 1) (v3 1 (-1) 1) (v3 0 1 1)
    = f32_one /\
  line2tri3d (v3 0 0 0) (v3 0 0 (-1)) (v3 (-1) (-1) 1) (v3 1 (-1) 1) (v3 0 1 1)
    = NAN /\
  x3 (tri_res (v3 0 0 0) (v3 0 0 (-1)) (v3 (-1) (-1) 1) (v3 1 (-1) 1) (v3 0 1 1))
    = f32 (-1) /\
  fle fzero (f32 (-1)) = false.
Proof. repeat split; vm_compute; reflexivity. Qed.

(** C8.  The known-good and known-miss segment cases: with origin [(0,0)]
    and direction [(1,0)], the segment [(2,-1), (2,1)] gives [k = 2.0] and
    the segment [(2,1), (2,2)] gives NaN, its [l] being [-1.0]. *)
Theorem known_cases_2d :
  line2seg2d (v2 0 0) (v2 1 0) (v2 2 (-1)) (v2 2 1) = f32 2 /\
  line2seg2d (v2 0 0) (v2 1 0) (v2 2 1) (v2 2 2) = NAN /\
  y2 (seg_res (v2 0 0) (v2 1 0) (v2 2 1) (v2 2 2)) = f32 (-1).
Proof. repeat split; vm_compute; reflexivity. Qed.

(** C9.  A call to [line2seg2d] or [line2tri3d] in which some component of
    some argument is NaN returns NaN; the test [det == 0] and the
    acceptance comparisons are false of NaN. *)
Theorem nan_input_returns_nan :
  (forall origin direction p0 p1 : float2 spec_float,
     has_nan2 origin || has_nan2 direction || has_nan2 p0 || has_nan2 p1 = true ->
     isnan (line2seg2d origin direction p0 p1) = true) /\
  (forall origin direction p0 p1 p2 : float3 spec_float,
     has_nan3 origin || has_nan3 direction ||
     has_nan3 p0 || has_nan3 p1 || has_nan3 p2 = true ->
     isnan (line2tri3d origin direction p0 p1 p2) = true) /\
  (forall a : spec_float,
     isnan a = true ->
     feq a fzero = false /\ fle fzero a = false /\ between fzero a fone = false).
Proof.
  split; [|split].
  3: { intros a H. apply isnan_eq in H. subst a. repeat split. }
  - intros origin direction p0 p1 H. unfold has_nan2 in H.
    repeat (apply orb_prop in H; destruct H as [H|H]).
    1,2: apply seg_nan_res;
      unfold seg_res, dot2, sub2; cbn [x2 y2]; auto 6 with nan.
    all: apply seg_nan_det; unfold seg_det, sub2; cbn [x2 y2]; auto 6 with nan.
  - intros origin direction p0 p1 p2 H. unfold has_nan3 in H.
    repeat (apply orb_prop in H; destruct H as [H|H]).
    1,2,3: apply tri_nan_res;
      unfold tri_res, dot3, sub3; cbn [x3 y3 z3]; auto 6 with nan.
    all: apply tri_nan_det; unfold tri_det, sub3; cbn [x3 y3 z3]; auto 10 with nan.
Qed.

Lemma nan_input_returns_nan_witness :
  (has_nan2 (Float2 (f32 0) NAN) = true /\
   isnan (line2seg2d (Float2 (f32 0) NAN) (v2 1 0) (v2 2 (-1)) (v2 2 1)) = true) /\
  (has_nan3 (Float3 (f32 0) NAN (f32 1)) = true /\
   isnan (line2tri3d (v3 0 0 0) (Float3 (f32 0) NAN (f32 1))
            (v3 (-1) (-1) 1) (v3 1 (-1) 1) (v3 0 1 1)) = true) /\
  (isnan NAN = true /\ feq NAN fzero = false).
Proof.
  split; [|split]; (split; [reflexivity|]).
  - apply (proj1 nan_input_returns_nan
             (Float2 (f32 0) NAN) (v2 1 0) (v2 2 (-1)) (v2 2 1)). reflexivity.
  - apply (proj1 (proj2 nan_input_returns_nan)
             (v3 0 0 0) (Float3 (f32 0) NAN (f32 1))
             (v3 (-1) (-1) 1) (v3 1 (-1) 1) (v3 0 1 1)). reflexivity.
  - destruct (proj2 (proj2 nan_input_returns_nan) NAN) as [H _];
      [reflexivity | exact H].
Defined.

(** ** Exact arithmetic: the derivation of the header's comments *)

Lemma xdiv_nonzero (u v : Q) :
  Qeq_bool v 0 = false -> xdiv (Some u) (Some v) = Some (u / v).
Proof. intros H. unfold xdiv. rewrite H. reflexivity. Qed.

Ltac exact_ops :=
  cbn [x2 y2 x3 y3 z3 fadd fsub fmul fdiv fneg fle feq fzero fone NAN
       exactQ xlift2 xtest xneg] in *.

(** When the operations are exact (the instance [exactQ]) and the
    determinant is not zero, the pair [(k, l)] that [line2seg2d] computes
    is the one solution of [origin + k*direction = p0 + l*(p1 - p0)], and
    every value the function returns is that [k], with [0 <= k] and
    [0 <= l <= 1]. *)
Lemma exact_solution_2d :
  forall origin direction p0 p1 : float2 Q,
    feq (seg_det (inj2 direction) (inj2 p0) (inj2 p1)) fzero = false ->
    exists k l : Q,
      seg_res (inj2 origin) (inj2 direction) (inj2 p0) (inj2 p1)
        = Float2 (Some k) (Some l) /\
      solves2d origin direction p0 p1 k l /\
      (forall k' l',
         solves2d origin direction p0 p1 k' l' -> k' == k /\ l' == l) /\
      (forall r,
         line2seg2d (inj2 origin) (inj2 direction) (inj2 p0) (inj2 p1) = Some r ->
         r = k /\ 0 <= k /\ 0 <= l /\ l <= 1).
Proof.
  intros [ox oy] [dx dy] [ax ay] [bx b_y] Hdet.
  pose proof (line2seg2d_cases (inj2 (Float2 ox oy)) (inj2 (Float2 dx dy))
                (inj2 (Float2 ax ay)) (inj2 (Float2 bx b_y))) as Hc.
  unfold seg_res in *. unfold seg_det, inj2, sub2, divs2, dot2 in *. exact_ops.
  rewrite !(xdiv_nonzero _ _ Hdet) in *. exact_ops.
  apply Qeq_bool_neq in Hdet.
  do 2 eexists. split; [reflexivity|]. split; [|split].
  - unfold solves2d; cbn [x2 y2]. split; field; exact Hdet.
  - unfold solves2d; cbn [x2 y2]. intros k' l' [E1 E2].
    assert (Bx : ax - ox == k' * dx + l' * (ax - bx)) by lra.
    assert (By : ay - oy == k' * dy + l' * (ay - b_y)) by lra.
    rewrite Bx, By. split; field; exact Hdet.
  - intros r Hr. destruct Hc as [Hc|(_ & Hacc & Hret)].
    + rewrite Hr in Hc. discriminate.
    + rewrite Hr in Hret. injection Hret as ->.
      unfold seg_accept, between in Hacc. exact_ops.
      rewrite !andb_true_iff, !Qle_bool_iff in Hacc. tauto.
Qed.

(** When the operations are exact and the determinant is not zero, the
    triple [(k, l, m)] that [line2tri3d] computes is the one solution of
    [origin + k*direction = p0 + l*(p1 - p0) + m*(p2 - p0)], and every
    value the function returns is that [k], with [0 <= k], [0 <= l <= 1],
    [0 <= m <= 1] and [0 <= l + m <= 1]. *)
Lemma exact_solution_3d :
  forall origin direction p0 p1 p2 : float3 Q,
    feq (tri_det (inj3 direction) (inj3 p0) (inj3 p1) (inj3 p2)) fzero = false ->
    exists k l m : Q,
      tri_res (inj3 origin) (inj3 direction) (inj3 p0) (inj3 p1) (inj3 p2)
        = Float3 (Some k) (Some l) (Some m) /\
      solves3d origin direction p0 p1 p2 k l m /\
      (forall k' l' m',
         solves3d origin direction p0 p1 p2 k' l' m' ->
         k' == k /\ l' == l /\ m' == m) /\
      (forall r,
         line2tri3d (inj3 origin) (inj3 direction) (inj3 p0) (inj3 p1) (inj3 p2)
           = Some r ->
         r = k /\ 0 <= k /\ 0 <= l /\ l <= 1 /\ 0 <= m /\ m <= 1 /\
         0 <= l + m /\ l + m <= 1).
Proof.
  intros [ox oy oz] [dx dy dz] [ax ay az] [bx b_y bz] [cx cy cz] Hdet.
  pose proof (line2tri3d_cases (inj3 (Float3 ox oy oz)) (inj3 (Float3 dx dy dz))
                (inj3 (Float3 ax ay az)) (inj3 (Float3 bx b_y bz))
                (inj3 (Float3 cx cy cz))) as Hc.
  unfold tri_res in *. unfold tri_det, inj3, sub3, divs3, dot3 in *. exact_ops.
  rewrite !(xdiv_nonzero _ _ Hdet) in *. exact_ops.
  apply Qeq_bool_neq in Hdet.
  do 3 eexists. split; [reflexivity|]. split; [|split].
  - unfold solves3d; cbn [x3 y3 z3]. repeat split; field; exact Hdet.
  - unfold solves3d; cbn [x3 y3 z3]. intros k' l' m' (E1 & E2 & E3).
    assert (Bx : ax - ox == k' * dx + l' * (ax - bx) + m' * (ax - cx)) by lra.
    assert (By : ay - oy == k' * dy + l' * (ay - b_y) + m' * (ay - cy)) by lra.
    assert (Bz : az - oz == k' * dz + l' * (az - bz) + m' * (az - cz)) by lra.
    rewrite Bx, By, Bz. repeat split; field; exact Hdet.
  - intros r Hr. destruct Hc as [Hc|(_ & Hacc & Hret)].
    + rewrite Hr in Hc. discriminate.
    + rewrite Hr in Hret. injection Hret as ->.
      unfold tri_accept, between in Hacc. exact_ops.
      rewrite !andb_true_iff, !Qle_bool_iff in Hacc. tauto.
Qed.

(** C10, as amended.  When the operations are exact, swapping the two
    endpoints of the segment does not change the result of [line2seg2d]:
    both calls return NaN, or both return the same [k]. *)
Theorem swap_endpoints_exact :
  forall origin direction p0 p1 : float2 Q,
    xeq (line2seg2d (inj2 origin) (inj2 direction) (inj2 p1) (inj2 p0))
        (line2seg2d (inj2 origin) (inj2 direction) (inj2 p0) (inj2 p1)).
Proof.
  intros [ox oy] [dx dy] [ax ay] [bx b_y].
  rewrite !line2seg2d_eq.
  unfold seg_accept, between, seg_res, seg_det, inj2, sub2, divs2, dot2. exact_ops.
  destruct (Qeq_bool (dx * (ay - b_y) - dy * (ax - bx)) 0) eqn:Hdet.
  - assert (Hdet' : Qeq_bool (dx * (b_y - ay) - dy * (bx - ax)) 0 = true).
    { apply Qeq_bool_iff. apply Qeq_bool_iff in Hdet. lra. }
    rewrite Hdet'. exact I.
  - assert (Hdet' : Qeq_bool (dx * (b_y - ay) - dy * (bx - ax)) 0 = false).
    { destruct (Qeq_bool (dx * (b_y - ay) - dy * (bx - ax)) 0) eqn:E; [|reflexivity].
      apply Qeq_bool_iff in E. apply Qeq_bool_neq in Hdet.
      exfalso. apply Hdet. lra. }
    rewrite Hdet'. rewrite !(xdiv_nonzero _ _ Hdet), !(xdiv_nonzero _ _ Hdet').
    exact_ops.
    apply Qeq_bool_neq in Hdet, Hdet'.
    set (k' := (b_y - ay) / (dx * (b_y - ay) - dy * (bx - ax)) * (bx - ox) +
               - (bx - ax) / (dx * (b_y - ay) - dy * (bx - ax)) * (b_y - oy)).
    set (l' := - dy / (dx * (b_y - ay) - dy * (bx - ax)) * (bx - ox) +
               dx / (dx * (b_y - ay) - dy * (bx - ax)) * (b_y - oy)).
    set (k := (ay - b_y) / (dx * (ay - b_y) - dy * (ax - bx)) * (ax - ox) +
              - (ax - bx) / (dx * (ay - b_y) - dy * (ax - bx)) * (ay - oy)).
    set (l := - dy / (dx * (ay - b_y) - dy * (ax - bx)) * (ax - ox) +
              dx / (dx * (ay - b_y) - dy * (ax - bx)) * (ay - oy)).
    assert (Hk : k' == k) by (unfold k', k; field; split; assumption).
    assert (Hl : l' == 1 - l) by (unfold l', l; field; split; assumption).
    clearbody k k' l l'.
    assert (Hacc : Qle_bool 0 k' && (Qle_bool 0 l' && Qle_bool l' 1)
                   = Qle_bool 0 k && (Qle_bool 0 l && Qle_bool l 1)).
    { apply eq_true_iff_eq. rewrite !andb_true_iff, !Qle_bool_iff.
      split; intros (H1 & H2 & H3); repeat split; lra. }
    rewrite Hacc.
    destruct (Qle_bool 0 k && (Qle_bool 0 l && Qle_bool l 1)); [exact Hk | exact I].
Qed.

(** ** Single precision: where rounding shows *)

(** C2 fails on the single-precision program.  The ray from [(0,0)] along
    [(3,0)] meets the segment [(1,-1), (1,1)] at [k = 1/3]; the call
    returns the single-precision number [11184811 * 2^-25], and no [l]
    makes that number a solution. *)
Lemma rounded_solution_2d :
  feq (seg_det (v2 3 0) (v2 1 (-1)) (v2 1 1)) fzero = false /\
  seg_res (v2 0 0) (v2 3 0) (v2 1 (-1)) (v2 1 1)
    = Float2 (S754_finite false 11184811 (-25)) (S754_finite false 8388608 (-24)) /\
  line2seg2d (v2 0 0) (v2 3 0) (v2 1 (-1)) (v2 1 1)
    = S754_finite false 11184811 (-25) /\
  ~ (exists k l : Q,
       denotes (line2seg2d (v2 0 0) (v2 3 0) (v2 1 (-1)) (v2 1 1)) k /\
       solves2d (q2 0 0) (q2 3 0) (q2 1 (-1)) (q2 1 1) k l).
Proof.
  assert (E : line2seg2d (v2 0 0) (v2 3 0) (v2 1 (-1)) (v2 1 1)
              = S754_finite false 11184811 (-25)) by reflexivity.
  repeat split; try reflexivity.
  intros (k & l & Hk & Hx & _). rewrite E in Hk. unfold denotes in Hk.
  change (SF2Q (S754_finite false 11184811 (-25)))
    with (Some (11184811 # 33554432)) in Hk.
  cbv iota in Hk.
  cbn [x2 y2 q2] in Hx.
  change (inject_Z 0) with 0 in Hx. change (inject_Z 1) with 1 in Hx.
  change (inject_Z 3) with 3 in Hx.
  lra.
Qed.

(** C1 fails on the single-precision program.  The ray from [(0,0,0)]
    along [(0,0,3)] meets the triangle [(-1,-1,1), (1,-1,1), (0,1,1)] at
    [k = 1/3]; the call returns [11184811 * 2^-25], and no [l], [m] make
    that number a solution. *)
Lemma rounded_solution_3d :
  feq (tri_det (v3 0 0 3) (v3 (-1) (-1) 1) (v3 1 (-1) 1) (v3 0 1 1)) fzero = false /\
  x3 (tri_res (v3 0 0 0) (v3 0 0 3) (v3 (-1) (-1) 1) (v3 1 (-1) 1) (v3 0 1 1))
    = S754_finite false 11184811 (-25) /\
  line2tri3d (v3 0 0 0) (v3 0 0 3) (v3 (-1) (-1) 1) (v3 1 (-1) 1) (v3 0 1 1)
    = S754_finite false 11184811 (-25) /\
  ~ (exists k l m : Q,
       denotes (line2tri3d (v3 0 0 0) (v3 0 0 3)
                  (v3 (-1) (-1) 1) (v3 1 (-1) 1) (v3 0 1 1)) k /\
       solves3d (q3 0 0 0) (q3 0 0 3) (q3 (-1) (-1) 1) (q3 1 (-1) 1) (q3 0 1 1)
         k l m).
Proof.
  assert (E : line2tri3d (v3 0 0 0) (v3 0 0 3)
                (v3 (-1) (-1) 1) (v3 1 (-1) 1) (v3 0 1 1)
              = S754_finite false 11184811 (-25)) by reflexivity.
  repeat split; try reflexivity.
  intros (k & l & m & Hk & _ & _ & Hz). rewrite E in Hk. unfold denotes in Hk.
  change (SF2Q (S754_finite false 11184811 (-25)))
    with (Some (11184811 # 33554432)) in Hk.
  cbv iota in Hk.
  cbn [x3 y3 z3 q3] in Hz.
  change (inject_Z 0) with 0 in Hz. change (inject_Z 1) with 1 in Hz.
  change (inject_Z 3) with 3 in Hz.
  lra.
Qed.

(** C10 fails on the single-precision program.  With origin [(0,0)] and
    direction [(1,1)], the segment [(0,0), (2,5)] gives [k = 0] and the
    same segment written [(2,5), (0,0)] gives NaN: its [k] is rounded to a
    negative number.  With direction [(-1,0)], the segment
    [(-1,-2), (0,1)] and its swap give two different values of [k]. *)
Lemma swap_endpoints_rounded :
  line2seg2d (v2 0 0) (v2 1 1) (v2 0 0) (v2 2 5) = S754_zero false /\
  line2seg2d (v2 0 0) (v2 1 1) (v2 2 5) (v2 0 0) = NAN /\
  isnan (line2seg2d (v2 0 0) (v2 1 1) (v2 2 5) (v2 0 0))
    <> isnan (line2seg2d (v2 0 0) (v2 1 1) (v2 0 0) (v2 2 5)) /\
  SFltb (x2 (seg_res (v2 0 0) (v2 1 1) (v2 2 5) (v2 0 0))) fzero = true /\
  line2seg2d (v2 0 0) (v2 (-1) 0) (v2 (-1) (-2)) (v2 0 1)
    = S754_finite false 11184810 (-25) /\
  line2seg2d (v2 0 0) (v2 (-1) 0) (v2 0 1) (v2 (-1) (-2))
    = S754_finite false 11184811 (-25) /\
  feq (line2seg2d (v2 0 0) (v2 (-1) 0) (v2 0 1) (v2 (-1) (-2)))
      (line2seg2d (v2 0 0) (v2 (-1) 0) (v2 (-1) (-2)) (v2 0 1)) = false.
Proof. repeat split; vm_compute; (reflexivity || discriminate).
Qed.

(** ** Single precision: calls in which no operation rounds *)

(** The flagged run computes the same data as the single-precision run. *)
Lemma fst_fadd (p q : traced) : fst (fadd p q) = fadd (fst p) (fst q).
Proof. reflexivity. Qed.
Lemma fst_fsub (p q : traced) : fst (fsub p q) = fsub (fst p) (fst q).
Proof. reflexivity. Qed.
Lemma fst_fmul (p q : traced) : fst (fmul p q) = fmul (fst p) (fst q).
Proof. reflexivity. Qed.
Lemma fst_fdiv (p q : traced) : fst (fdiv p q) = fdiv (fst p) (fst q).
Proof. reflexivity. Qed.
Lemma fst_fneg (p : traced) : fst (fneg p) = fneg (fst p).
Proof. reflexivity. Qed.
Lemma fst_tr (a : spec_float) : fst (tr a) = a.
Proof. reflexivity. Qed.
Lemma fst_fone : fst (@fone traced _) = fone.
Proof. reflexivity. Qed.

Ltac untrace :=
  rewrite ?fst_fadd, ?fst_fsub, ?fst_fmul, ?fst_fdiv, ?fst_fneg, ?fst_tr, ?fst_fone.

Lemma fst_seg_res (origin direction p0 p1 : float2 spec_float) :
  fst (x2 (seg_res (tr2 origin) (tr2 direction) (tr2 p0) (tr2 p1)))
    = x2 (seg_res origin direction p0 p1) /\
  fst (y2 (seg_res (tr2 origin) (tr2 direction) (tr2 p0) (tr2 p1)))
    = y2 (seg_res origin direction p0 p1).
Proof.
  unfold seg_res, seg_det, dot2, divs2, sub2, tr2; cbn [x2 y2].
  split; repeat untrace; reflexivity.
Qed.

Lemma fst_tri_res (origin direction p0 p1 p2 : float3 spec_float) :
  fst (x3 (tri_res (tr3 origin) (tr3 direction) (tr3 p0) (tr3 p1) (tr3 p2)))
    = x3 (tri_res origin direction p0 p1 p2) /\
  fst (y3 (tri_res (tr3 origin) (tr3 direction) (tr3 p0) (tr3 p1) (tr3 p2)))
    = y3 (tri_res origin direction p0 p1 p2) /\
  fst (z3 (tri_res (tr3 origin) (tr3 direction) (tr3 p0) (tr3 p1) (tr3 p2)))
    = z3 (tri_res origin direction p0 p1 p2).
Proof.
  unfold tri_res, tri_det, dot3, divs3, sub3, tr3; cbn [x3 y3 z3].
  repeat split; repeat untrace; reflexivity.
Qed.

(** The flagged run agrees with the exact run, operation by operation. *)
Lemma same_value_inv (a : spec_float) (u : xQ) :
  same_value a u = true ->
  exists x y : Q, SF2Q a = Some x /\ u = Some y /\ x == y.
Proof.
  unfold same_value. destruct (SF2Q a) as [x|]; [|discriminate].
  destruct u as [y|]; [|discriminate].
  intros H. apply Qeq_bool_iff in H. now exists x, y.
Qed.

Lemma denotes_inv (a : spec_float) (q : Q) :
  denotes a q -> exists x : Q, SF2Q a = Some x /\ x == q.
Proof.
  unfold denotes. destruct (SF2Q a) as [x|]; [|contradiction].
  intros H. now exists x.
Qed.

Lemma agrees_track2 f g (p p' : traced) (u u' : xQ) :
  (forall x y x' y' : Q,
     x == x' -> y == y' -> xeq (g (Some x) (Some y)) (g (Some x') (Some y'))) ->
  agrees p u -> agrees p' u' -> agrees (track2 f g p p') (g u u').
Proof.
  intros Hg Hp Hp' Hflag. destruct p as [a fa], p' as [b fb].
  unfold track2 in *. cbn [fst snd] in *.
  apply andb_prop in Hflag. destruct Hflag as [Hflag Hsame].
  apply andb_prop in Hflag. destruct Hflag as [Ha Hb].
  destruct (Hp Ha) as (q & -> & Dq). destruct (Hp' Hb) as (q' & -> & Dq').
  cbn [fst] in Dq, Dq'. apply denotes_inv in Dq, Dq'.
  destruct Dq as (x & Ex & Hx). destruct Dq' as (y & Ey & Hy).
  rewrite Ex, Ey in Hsame.
  apply same_value_inv in Hsame. destruct Hsame as (z & w & Ez & Ew & Hzw).
  specialize (Hg x y q q' Hx Hy). rewrite Ew in Hg.
  destruct (g (Some q) (Some q')) as [w'|]; [|contradiction].
  exists w'. split; [reflexivity|].
  unfold denotes. rewrite Ez. cbn [xeq] in Hg. rewrite Hzw. exact Hg.
Qed.

Lemma agrees_track1 f g (p : traced) (u : xQ) :
  (forall x x' : Q, x == x' -> xeq (g (Some x)) (g (Some x'))) ->
  agrees p u -> agrees (track1 f g p) (g u).
Proof.
  intros Hg Hp Hflag. destruct p as [a fa].
  unfold track1 in *. cbn [fst snd] in *.
  apply andb_prop in Hflag. destruct Hflag as [Ha Hsame].
  destruct (Hp Ha) as (q & -> & Dq).
  cbn [fst] in Dq. apply denotes_inv in Dq. destruct Dq as (x & Ex & Hx).
  rewrite Ex in Hsame.
  apply same_value_inv in Hsame. destruct Hsame as (z & w & Ez & Ew & Hzw).
  specialize (Hg x q Hx). rewrite Ew in Hg.
  destruct (g (Some q)) as [w'|]; [|contradiction].
  exists w'. split; [reflexivity|].
  unfold denotes. rewrite Ez. cbn [xeq] in Hg. rewrite Hzw. exact Hg.
Qed.

Lemma agrees_fadd (p p' : traced) (u u' : xQ) :
  agrees p u -> agrees p' u' -> agrees (fadd p p') (fadd u u').
Proof.
  apply agrees_track2. intros x y x' y' Hx Hy. cbn. now rewrite Hx, Hy.
Qed.

Lemma agrees_fsub (p p' : traced) (u u' : xQ) :
  agrees p u -> agrees p' u' -> agrees (fsub p p') (fsub u u').
Proof.
  apply agrees_track2. intros x y x' y' Hx Hy. cbn. now rewrite Hx, Hy.
Qed.

Lemma agrees_fmul (p p' : traced) (u u' : xQ) :
  agrees p u -> agrees p' u' -> agrees (fmul p p') (fmul u u').
Proof.
  apply agrees_track2. intros x y x' y' Hx Hy. cbn. now rewrite Hx, Hy.
Qed.

Lemma agrees_fdiv (p p' : traced) (u u' : xQ) :
  agrees p u -> agrees p' u' -> agrees (fdiv p p') (fdiv u u').
Proof.
  apply agrees_track2. intros x y x' y' Hx Hy. cbn [fdiv exactQ xdiv].
  rewrite <- Hy. destruct (Qeq_bool y 0); [exact I|].
  cbn. now rewrite Hx, Hy.
Qed.

Lemma agrees_fneg (p : traced) (u : xQ) :
  agrees p u -> agrees (fneg p) (fneg u).
Proof.
  apply agrees_track1. intros x x' Hx. cbn. now rewrite Hx.
Qed.

Lemma agrees_tr (a : spec_float) (q : Q) : denotes a q -> agrees (tr a) (Some q).
Proof. intros H _. exists q. split; [reflexivity | exact H]. Qed.

Lemma agrees_fone : agrees fone fone.
Proof. intros _. exists 1. split; [reflexivity | vm_compute; reflexivity]. Qed.

Ltac agree :=
  repeat first
    [ apply agrees_fadd | apply agrees_fsub | apply agrees_fmul
    | apply agrees_fdiv | apply agrees_fneg | apply agrees_fone
    | apply agrees_tr; assumption ].

Lemma seg_res_agrees (origin direction p0 p1 : float2 spec_float)
    (qo qd q0 q1 : float2 Q) :
  denotes2 origin qo -> denotes2 direction qd ->
  denotes2 p0 q0 -> denotes2 p1 q1 ->
  agrees (x2 (seg_res (tr2 origin) (tr2 direction) (tr2 p0) (tr2 p1)))
         (x2 (seg_res (inj2 qo) (inj2 qd) (inj2 q0) (inj2 q1))) /\
  agrees (y2 (seg_res (tr2 origin) (tr2 direction) (tr2 p0) (tr2 p1)))
         (y2 (seg_res (inj2 qo) (inj2 qd) (inj2 q0) (inj2 q1))).
Proof.
  intros [? ?] [? ?] [? ?] [? ?].
  unfold seg_res, seg_det, dot2, divs2, sub2, tr2, inj2; cbn [x2 y2].
  split; agree.
Qed.

Lemma tri_res_agrees (origin direction p0 p1 p2 : float3 spec_float)
    (qo qd q0 q1 q2 : float3 Q) :
  denotes3 origin qo -> denotes3 direction qd ->
  denotes3 p0 q0 -> denotes3 p1 q1 -> denotes3 p2 q2 ->
  agrees (x3 (tri_res (tr3 origin) (tr3 direction) (tr3 p0) (tr3 p1) (tr3 p2)))
         (x3 (tri_res (inj3 qo) (inj3 qd) (inj3 q0) (inj3 q1) (inj3 q2))) /\
  agrees (y3 (tri_res (tr3 origin) (tr3 direction) (tr3 p0) (tr3 p1) (tr3 p2)))
         (y3 (tri_res (inj3 qo) (inj3 qd) (inj3 q0) (inj3 q1) (inj3 q2))) /\
  agrees (z3 (tri_res (tr3 origin) (tr3 direction) (tr3 p0) (tr3 p1) (tr3 p2)))
         (z3 (tri_res (inj3 qo) (inj3 qd) (inj3 q0) (inj3 q1) (inj3 q2))).
Proof.
  intros (? & ? & ?) (? & ? & ?) (? & ? & ?) (? & ? & ?) (? & ? & ?).
  unfold tri_res, tri_det, dot3, divs3, sub3, tr3, inj3; cbn [x3 y3 z3].
  repeat split; agree.
Qed.

(** In exact arithmetic a zero determinant leaves [res] undefined. *)
Lemma seg_singular_exact (origin direction p0 p1 : float2 Q) :
  feq (seg_det (inj2 direction) (inj2 p0) (inj2 p1)) fzero = true ->
  x2 (seg_res (inj2 origin) (inj2 direction) (inj2 p0) (inj2 p1)) = None.
Proof.
  destruct origin, direction, p0, p1.
  unfold seg_res, seg_det, inj2, sub2, divs2, dot2. exact_ops.
  intros H. unfold xdiv. rewrite H. reflexivity.
Qed.

Lemma tri_singular_exact (origin direction p0 p1 p2 : float3 Q) :
  feq (tri_det (inj3 direction) (inj3 p0) (inj3 p1) (inj3 p2)) fzero = true ->
  x3 (tri_res (inj3 origin) (inj3 direction) (inj3 p0) (inj3 p1) (inj3 p2)) = None.
Proof.
  destruct origin, direction, p0, p1, p2.
  unfold tri_res, tri_det, inj3, sub3, divs3, dot3. exact_ops.
  intros H. unfold xdiv. rewrite H. reflexivity.
Qed.

Lemma rounding_free_seg_flags (origin direction p0 p1 : float2 spec_float) :
  rounding_free_seg origin direction p0 p1 = true ->
  snd (x2 (seg_res (tr2 origin) (tr2 direction) (tr2 p0) (tr2 p1))) = true /\
  snd (y2 (seg_res (tr2 origin) (tr2 direction) (tr2 p0) (tr2 p1))) = true.
Proof.
  unfold rounding_free_seg. cbv zeta.
  generalize (seg_res (tr2 origin) (tr2 direction) (tr2 p0) (tr2 p1)).
  intros T H. apply andb_prop in H. exact H.
Qed.

Lemma rounding_free_tri_flags (origin direction p0 p1 p2 : float3 spec_float) :
  rounding_free_tri origin direction p0 p1 p2 = true ->
  snd (x3 (tri_res (tr3 origin) (tr3 direction) (tr3 p0) (tr3 p1) (tr3 p2))) = true /\
  snd (y3 (tri_res (tr3 origin) (tr3 direction) (tr3 p0) (tr3 p1) (tr3 p2))) = true /\
  snd (z3 (tri_res (tr3 origin) (tr3 direction) (tr3 p0) (tr3 p1) (tr3 p2))) = true.
Proof.
  unfold rounding_free_tri. cbv zeta.
  generalize (tri_res (tr3 origin) (tr3 direction) (tr3 p0) (tr3 p1) (tr3 p2)).
  intros T H. apply andb_prop in H. destruct H as [H Hm].
  apply andb_prop in H. tauto.
Qed.

Lemma agrees_denotes (p : traced) (u : xQ) (a : spec_float) :
  agrees p u -> fst p = a -> snd p = true ->
  exists q : Q, u = Some q /\ denotes a q.
Proof. intros Hp <- Hflag. exact (Hp Hflag). Qed.

(** In a call of the single-precision [line2seg2d] on finite inputs in
    which no operation rounds, [res] denotes the one solution of the
    relation, and a value that is returned denotes its [k]. *)
Lemma rounding_free_solution_2d :
  forall (origin direction p0 p1 : float2 spec_float) (qo qd q0 q1 : float2 Q),
    denotes2 origin qo -> denotes2 direction qd ->
    denotes2 p0 q0 -> denotes2 p1 q1 ->
    rounding_free_seg origin direction p0 p1 = true ->
    exists k l : Q,
      denotes (x2 (seg_res origin direction p0 p1)) k /\
      denotes (y2 (seg_res origin direction p0 p1)) l /\
      solves2d qo qd q0 q1 k l /\
      (forall k' l', solves2d qo qd q0 q1 k' l' -> k' == k /\ l' == l) /\
      (isnan (line2seg2d origin direction p0 p1) = false ->
       denotes (line2seg2d origin direction p0 p1) k /\
       fle fzero (x2 (seg_res origin direction p0 p1)) = true /\
       between fzero (y2 (seg_res origin direction p0 p1)) fone = true).
Proof.
  intros origin direction p0 p1 qo qd q0 q1 Ho Hd H0 H1 Hfree.
  destruct (rounding_free_seg_flags _ _ _ _ Hfree) as [Fk Fl].
  destruct (@seg_res_agrees _ _ _ _ _ _ _ _ Ho Hd H0 H1) as [Ak Al].
  destruct (fst_seg_res origin direction p0 p1) as [Sk Sl].
  destruct (@agrees_denotes _ _ _ Ak Sk Fk) as (k & Ek & Dk).
  destruct (@agrees_denotes _ _ _ Al Sl Fl) as (l & El & Dl).
  clear Hfree Fk Fl Ak Al Sk Sl.
  destruct (feq (seg_det (inj2 qd) (inj2 q0) (inj2 q1)) fzero) eqn:Hdet.
  { rewrite (@seg_singular_exact qo qd q0 q1 Hdet) in Ek. discriminate Ek. }
  destruct (@exact_solution_2d qo qd q0 q1 Hdet) as (k0 & l0 & Hres & Hsol & Huniq & _).
  rewrite Hres in Ek, El. cbn [x2 y2] in Ek, El.
  injection Ek as ->. injection El as ->.
  exists k, l. split; [exact Dk|]. split; [exact Dl|]. split; [exact Hsol|].
  split; [exact Huniq|]. intros Hret.
  destruct (@returned_seg origin direction p0 p1 Hret) as (_ & Hacc & E).
  rewrite E. split; [exact Dk|].
  unfold seg_accept in Hacc. apply andb_prop in Hacc. exact Hacc.
Qed.

(** The same for [line2tri3d]. *)
Lemma rounding_free_solution_3d :
  forall (origin direction p0 p1 p2 : float3 spec_float)
         (qo qd q0 q1 q2 : float3 Q),
    denotes3 origin qo -> denotes3 direction qd ->
    denotes3 p0 q0 -> denotes3 p1 q1 -> denotes3 p2 q2 ->
    rounding_free_tri origin direction p0 p1 p2 = true ->
    exists k l m : Q,
      denotes (x3 (tri_res origin direction p0 p1 p2)) k /\
      denotes (y3 (tri_res origin direction p0 p1 p2)) l /\
      denotes (z3 (tri_res origin direction p0 p1 p2)) m /\
      solves3d qo qd q0 q1 q2 k l m /\
      (forall k' l' m',
         solves3d qo qd q0 q1 q2 k' l' m' -> k' == k /\ l' == l /\ m' == m) /\
      (isnan (line2tri3d origin direction p0 p1 p2) = false ->
       denotes (line2tri3d origin direction p0 p1 p2) k /\
       tri_accept (tri_res origin direction p0 p1 p2) = true).
Proof.
  intros origin direction p0 p1 p2 qo qd q0 q1 q2 Ho Hd H0 H1 H2 Hfree.
  destruct (rounding_free_tri_flags _ _ _ _ _ Hfree) as (Fk & Fl & Fm).
  destruct (@tri_res_agrees _ _ _ _ _ _ _ _ _ _ Ho Hd H0 H1 H2) as (Ak & Al & Am).
  destruct (fst_tri_res origin direction p0 p1 p2) as (Sk & Sl & Sm).
  destruct (@agrees_denotes _ _ _ Ak Sk Fk) as (k & Ek & Dk).
  destruct (@agrees_denotes _ _ _ Al Sl Fl) as (l & El & Dl).
  destruct (@agrees_denotes _ _ _ Am Sm Fm) as (m & Em & Dm).
  clear Hfree Fk Fl Fm Ak Al Am Sk Sl Sm.
  destruct (feq (tri_det (inj3 qd) (inj3 q0) (inj3 q1) (inj3 q2)) fzero) eqn:Hdet.
  { rewrite (@tri_singular_exact qo qd q0 q1 q2 Hdet) in Ek. discriminate Ek. }
  destruct (@exact_solution_3d qo qd q0 q1 q2 Hdet)
    as (k0 & l0 & m0 & Hres & Hsol & Huniq & _).
  rewrite Hres in Ek, El, Em. cbn [x3 y3 z3] in Ek, El, Em.
  injection Ek as ->. injection El as ->. injection Em as ->.
  exists k, l, m. split; [exact Dk|]. split; [exact Dl|]. split; [exact Dm|].
  split; [exact Hsol|]. split; [exact Huniq|]. intros Hret.
  destruct (@returned_tri origin direction p0 p1 p2 Hret) as (_ & Hacc & E).
  rewrite E. split; [exact Dk | exact Hacc].
Qed.

(** C2, as amended.  When the operations are exact and the determinant is
    not zero, the pair [(k, l)] that [line2seg2d] computes is the one
    solution of [origin + k*direction = p0 + l*(p1 - p0)], and every value
    returned is that [k], with [0 <= k] and [0 <= l <= 1].  The same holds
    of every call of the single-precision program on finite inputs in
    which no operation rounds: [res] denotes the one solution, and a
    returned value denotes its [k] and passed the acceptance tests. *)
Theorem solution_2d :
  (forall origin direction p0 p1 : float2 Q,
     feq (seg_det (inj2 direction) (inj2 p0) (inj2 p1)) fzero = false ->
     exists k l : Q,
       seg_res (inj2 origin) (inj2 direction) (inj2 p0) (inj2 p1)
         = Float2 (Some k) (Some l) /\
       solves2d origin direction p0 p1 k l /\
       (forall k' l',
          solves2d origin direction p0 p1 k' l' -> k' == k /\ l' == l) /\
       (forall r,
          line2seg2d (inj2 origin) (inj2 direction) (inj2 p0) (inj2 p1) = Some r ->
          r = k /\ 0 <= k /\ 0 <= l /\ l <= 1)) /\
  (forall (origin direction p0 p1 : float2 spec_float) (qo qd q0 q1 : float2 Q),
     denotes2 origin qo -> denotes2 direction qd ->
     denotes2 p0 q0 -> denotes2 p1 q1 ->
     rounding_free_seg origin direction p0 p1 = true ->
     exists k l : Q,
       denotes (x2 (seg_res origin direction p0 p1)) k /\
       denotes (y2 (seg_res origin direction p0 p1)) l /\
       solves2d qo qd q0 q1 k l /\
       (forall k' l', solves2d qo qd q0 q1 k' l' -> k' == k /\ l' == l) /\
       (isnan (line2seg2d origin direction p0 p1) = false ->
        denotes (line2seg2d origin direction p0 p1) k /\
        fle fzero (x2 (seg_res origin direction p0 p1)) = true /\
        between fzero (y2 (seg_res origin direction p0 p1)) fone = true)).
Proof. split; [exact exact_solution_2d | exact rounding_free_solution_2d]. Qed.

Lemma solution_2d_witness :
  (feq (seg_det (inj2 (q2 1 0)) (inj2 (q2 2 (-1))) (inj2 (q2 2 1))) fzero = false /\
   exists k l : Q,
     seg_res (inj2 (q2 0 0)) (inj2 (q2 1 0)) (inj2 (q2 2 (-1))) (inj2 (q2 2 1))
       = Float2 (Some k) (Some l) /\
     solves2d (q2 0 0) (q2 1 0) (q2 2 (-1)) (q2 2 1) k l) /\
  (rounding_free_seg (v2 0 0) (v2 1 0) (v2 2 (-1)) (v2 2 1) = true /\
   exists k l : Q,
     denotes (x2 (seg_res (v2 0 0) (v2 1 0) (v2 2 (-1)) (v2 2 1))) k /\
     solves2d (q2 0 0) (q2 1 0) (q2 2 (-1)) (q2 2 1) k l).
Proof.
  split; (split; [vm_compute; reflexivity|]).
  - destruct (proj1 solution_2d (q2 0 0) (q2 1 0) (q2 2 (-1)) (q2 2 1))
      as (k & l & Hres & Hsol & _); [reflexivity|].
    exists k, l. split; assumption.
  - assert (Do : denotes2 (v2 0 0) (q2 0 0)) by (split; vm_compute; reflexivity).
    assert (Dd : denotes2 (v2 1 0) (q2 1 0)) by (split; vm_compute; reflexivity).
    assert (D0 : denotes2 (v2 2 (-1)) (q2 2 (-1)))
      by (split; vm_compute; reflexivity).
    assert (D1 : denotes2 (v2 2 1) (q2 2 1)) by (split; vm_compute; reflexivity).
    assert (R : rounding_free_seg (v2 0 0) (v2 1 0) (v2 2 (-1)) (v2 2 1) = true)
      by (vm_compute; reflexivity).
    destruct (proj2 solution_2d _ _ _ _ _ _ _ _ Do Dd D0 D1 R)
      as (k & l & Hk & _ & Hsol & _).
    exists k, l. split; assumption.
Defined.

(** C1, as amended.  When the operations are exact and the determinant is
    not zero, the triple [(k, l, m)] that [line2tri3d] computes is the one
    solution of [origin + k*direction = p0 + l*(p1 - p0) + m*(p2 - p0)],
    and every value returned is that [k], with [0 <= k], [0 <= l <= 1],
    [0 <= m <= 1] and [0 <= l + m <= 1].  The same holds of every call of
    the single-precision program on finite inputs in which no operation
    rounds: [res] denotes the one solution, and a returned value denotes
    its [k] and passed the acceptance tests. *)
Theorem solution_3d :
  (forall origin direction p0 p1 p2 : float3 Q,
     feq (tri_det (inj3 direction) (inj3 p0) (inj3 p1) (inj3 p2)) fzero = false ->
     exists k l m : Q,
       tri_res (inj3 origin) (inj3 direction) (inj3 p0) (inj3 p1) (inj3 p2)
         = Float3 (Some k) (Some l) (Some m) /\
       solves3d origin direction p0 p1 p2 k l m /\
       (forall k' l' m',
          solves3d origin direction p0 p1 p2 k' l' m' ->
          k' == k /\ l' == l /\ m' == m) /\
       (forall r,
          line2tri3d (inj3 origin) (inj3 direction) (inj3 p0) (inj3 p1) (inj3 p2)
            = Some r ->
          r = k /\ 0 <= k /\ 0 <= l /\ l <= 1 /\ 0 <= m /\ m <= 1 /\
          0 <= l + m /\ l + m <= 1)) /\
  (forall (origin direction p0 p1 p2 : float3 spec_float)
          (qo qd q0 q1 q2 : float3 Q),
     denotes3 origin qo -> denotes3 direction qd ->
     denotes3 p0 q0 -> denotes3 p1 q1 -> denotes3 p2 q2 ->
     rounding_free_tri origin direction p0 p1 p2 = true ->
     exists k l m : Q,
       denotes (x3 (tri_res origin direction p0 p1 p2)) k /\
       denotes (y3 (tri_res origin direction p0 p1 p2)) l /\
       denotes (z3 (tri_res origin direction p0 p1 p2)) m /\
       solves3d qo qd q0 q1 q2 k l m /\
       (forall k' l' m',
          solves3d qo qd q0 q1 q2 k' l' m' -> k' == k /\ l' == l /\ m' == m) /\
       (isnan (line2tri3d origin direction p0 p1 p2) = false ->
        denotes (line2tri3d origin direction p0 p1 p2) k /\
        tri_accept (tri_res origin direction p0 p1 p2) = true)).
Proof. split; [exact exact_solution_3d | exact rounding_free_solution_3d]. Qed.

Lemma solution_3d_witness :
  (feq (tri_det (inj3 (q3 0 0 1)) (inj3 (q3 (-1) (-1) 1))
          (inj3 (q3 1 (-1) 1)) (inj3 (q3 0 1 1))) fzero = false /\
   exists k l m : Q,
     tri_res (inj3 (q3 0 0 0)) (inj3 (q3 0 0 1)) (inj3 (q3 (-1) (-1) 1))
         (inj3 (q3 1 (-1) 1)) (inj3 (q3 0 1 1))
       = Float3 (Some k) (Some l) (Some m) /\
     solves3d (q3 0 0 0) (q3 0 0 1) (q3 (-1) (-1) 1) (q3 1 (-1) 1) (q3 0 1 1)
       k l m) /\
  (rounding_free_tri (v3 0 0 0) (v3 0 0 1)
     (v3 (-1) (-1) 1) (v3 1 (-1) 1) (v3 0 1 1) = true /\
   exists k l m : Q,
     denotes (x3 (tri_res (v3 0 0 0) (v3 0 0 1)
                    (v3 (-1) (-1) 1) (v3 1 (-1) 1) (v3 0 1 1))) k /\
     solves3d (q3 0 0 0) (q3 0 0 1) (q3 (-1) (-1) 1) (q3 1 (-1) 1) (q3 0 1 1)
       k l m).
Proof.
  split; (split; [vm_compute; reflexivity|]).
  - destruct (proj1 solution_3d (q3 0 0 0) (q3 0 0 1) (q3 (-1) (-1) 1)
                (q3 1 (-1) 1) (q3 0 1 1))
      as (k & l & m & Hres & Hsol & _); [reflexivity|].
    exists k, l, m. split; assumption.
  - assert (Do : denotes3 (v3 0 0 0) (q3 0 0 0))
      by (repeat split; vm_compute; reflexivity).
    assert (Dd : denotes3 (v3 0 0 1) (q3 0 0 1))
      by (repeat split; vm_compute; reflexivity).
    assert (D0 : denotes3 (v3 (-1) (-1) 1) (q3 (-1) (-1) 1))
      by (repeat split; vm_compute; reflexivity).
    assert (D1 : denotes3 (v3 1 (-1) 1) (q3 1 (-1) 1))
      by (repeat split; vm_compute; reflexivity).
    assert (D2 : denotes3 (v3 0 1 1) (q3 0 1 1))
      by (repeat split; vm_compute; reflexivity).
    assert (R : rounding_free_tri (v3 0 0 0) (v3 0 0 1)
                  (v3 (-1) (-1) 1) (v3 1 (-1) 1) (v3 0 1 1) = true)
      by (vm_compute; reflexivity).
    destruct (proj2 solution_3d _ _ _ _ _ _ _ _ _ _ Do Dd D0 D1 D2 R)
      as (k & l & m & Hk & _ & _ & Hsol & _).
    exists k, l, m. split; assumption.
Defined.

(** ** Single precision: inputs that cannot give a hit *)

(** An infinity or NaN operand makes a sum, difference or product an
    infinity or NaN, and a quotient of two of them NaN. *)
Lemma nonfinite_add_l (a b : spec_float) :
  nonfinite a = true -> nonfinite (fadd a b) = true.
Proof. destruct a as [|[]| |]; try discriminate; destruct b as [|[]| |]; reflexivity. Qed.

Lemma nonfinite_add_r (a b : spec_float) :
  nonfinite b = true -> nonfinite (fadd a b) = true.
Proof. destruct b as [|[]| |]; try discriminate; destruct a as [|[]| |]; reflexivity. Qed.

Lemma nonfinite_sub_l (a b : spec_float) :
  nonfinite a = true -> nonfinite (fsub a b) = true.
Proof. destruct a as [|[]| |]; try discriminate; destruct b as [|[]| |]; reflexivity. Qed.

Lemma nonfinite_sub_r (a b : spec_float) :
  nonfinite b = true -> nonfinite (fsub a b) = true.
Proof. destruct b as [|[]| |]; try discriminate; destruct a as [|[]| |]; reflexivity. Qed.

Lemma nonfinite_mul_l (a b : spec_float) :
  nonfinite a = true -> nonfinite (fmul a b) = true.
Proof. destruct a; try discriminate; destruct b; reflexivity. Qed.

Lemma nonfinite_mul_r (a b : spec_float) :
  nonfinite b = true -> nonfinite (fmul a b) = true.
Proof. destruct b; try discriminate; destruct a; reflexivity. Qed.

Lemma nonfinite_neg (a : spec_float) :
  nonfinite a = true -> nonfinite (fneg a) = true.
Proof. destruct a; try discriminate; reflexivity. Qed.

Lemma isnan_div_nonfinite (a b : spec_float) :
  nonfinite a = true -> nonfinite b = true -> isnan (fdiv a b) = true.
Proof. destruct a; try discriminate; destruct b; try discriminate; reflexivity. Qed.

Lemma between_nonfinite (a : spec_float) :
  nonfinite a = true -> between fzero a fone = false.
Proof. destruct a as [|[]| |]; try discriminate; reflexivity. Qed.

Lemma isnan_nonfinite (a : spec_float) : isnan a = true -> nonfinite a = true.
Proof. destruct a; try discriminate; reflexivity. Qed.

Create HintDb nonfin discriminated.
#[export] Hint Resolve nonfinite_add_l nonfinite_add_r nonfinite_sub_l
  nonfinite_sub_r nonfinite_mul_l nonfinite_mul_r nonfinite_neg : nonfin.

(** An [l] that is infinite or NaN fails the acceptance test. *)
Lemma seg_nonfinite_l (origin direction p0 p1 : float2 spec_float) :
  nonfinite (y2 (seg_res origin direction p0 p1)) = true ->
  isnan (line2seg2d origin direction p0 p1) = true.
Proof.
  intros H. rewrite line2seg2d_eq.
  destruct (feq (seg_det direction p0 p1) fzero); [reflexivity|].
  unfold seg_accept. rewrite (between_nonfinite _ H), andb_false_r. reflexivity.
Qed.

Lemma tri_nonfinite_l (origin direction p0 p1 p2 : float3 spec_float) :
  nonfinite (y3 (tri_res origin direction p0 p1 p2)) = true ->
  isnan (line2tri3d origin direction p0 p1 p2) = true.
Proof.
  intros H. rewrite line2tri3d_eq.
  destruct (feq (tri_det direction p0 p1 p2) fzero); [reflexivity|].
  unfold tri_accept. rewrite (between_nonfinite _ H). cbn [andb].
  rewrite andb_false_r. reflexivity.
Qed.

(** X2.  A call to [line2seg2d] in which some component of some argument
    is an infinity or NaN returns NaN: only finite inputs can give a
    hit. *)
Theorem nonfinite_input_2d :
  forall origin direction p0 p1 : float2 spec_float,
    has_nonfinite2 origin || has_nonfinite2 direction ||
    has_nonfinite2 p0 || has_nonfinite2 p1 = true ->
    isnan (line2seg2d origin direction p0 p1) = true.
Proof.
  intros origin direction p0 p1 H. unfold has_nonfinite2 in H.
  repeat (apply orb_prop in H; destruct H as [H|H]).
  1,2: apply seg_nonfinite_l; unfold seg_res, dot2, sub2; cbn [x2 y2];
    auto 6 with nonfin.
  1,2: apply seg_nonfinite_l; apply isnan_nonfinite;
    unfold seg_res, seg_det, dot2, divs2, sub2; cbn [x2 y2].
  3-6: apply seg_nan_res; unfold seg_res, seg_det, dot2, divs2, sub2; cbn [x2 y2].
  - apply isnan_add_r, isnan_mul_l, isnan_div_nonfinite; auto 6 with nonfin.
  - apply isnan_add_l, isnan_mul_l, isnan_div_nonfinite; auto 6 with nonfin.
  - apply isnan_add_r, isnan_mul_l, isnan_div_nonfinite; auto 6 with nonfin.
  - apply isnan_add_l, isnan_mul_l, isnan_div_nonfinite; auto 6 with nonfin.
  - apply isnan_add_r, isnan_mul_l, isnan_div_nonfinite; auto 6 with nonfin.
  - apply isnan_add_l, isnan_mul_l, isnan_div_nonfinite; auto 6 with nonfin.
Qed.

Lemma nonfinite_input_2d_witness :
  has_nonfinite2 (Float2 (S754_infinity true) (f32 0)) = true /\
  isnan (line2seg2d (Float2 (S754_infinity true) (f32 0)) (v2 1 0)
           (v2 2 (-1)) (v2 2 1)) = true.
Proof.
  split; [reflexivity|].
  apply (nonfinite_input_2d (Float2 (S754_infinity true) (f32 0)) (v2 1 0)
           (v2 2 (-1)) (v2 2 1)).
  reflexivity.
Defined.

(** X3.  A call to [line2tri3d] in which some component of some argument
    is an infinity or NaN returns NaN. *)
Theorem nonfinite_input_3d :
  forall origin direction p0 p1 p2 : float3 spec_float,
    has_nonfinite3 origin || has_nonfinite3 direction ||
    has_nonfinite3 p0 || has_nonfinite3 p1 || has_nonfinite3 p2 = true ->
    isnan (line2tri3d origin direction p0 p1 p2) = true.
Proof.
  intros origin direction p0 p1 p2 H. unfold has_nonfinite3 in H.
  repeat (apply orb_prop in H; destruct H as [H|H]).
  1-3: apply tri_nonfinite_l; unfold tri_res, dot3, sub3; cbn [x3 y3 z3];
    auto 6 with nonfin.
  1-3: apply tri_nonfinite_l; apply isnan_nonfinite;
    unfold tri_res, tri_det, dot3, divs3, sub3; cbn [x3 y3 z3].
  4-12: apply tri_nan_res; unfold tri_res, tri_det, dot3, divs3, sub3;
    cbn [x3 y3 z3].
  - apply isnan_add_l, isnan_add_r, isnan_mul_l, isnan_div_nonfinite;
      auto 10 with nonfin.
  - apply isnan_add_l, isnan_add_l, isnan_mul_l, isnan_div_nonfinite;
      auto 10 with nonfin.
  - apply isnan_add_l, isnan_add_l, isnan_mul_l, isnan_div_nonfinite;
      auto 10 with nonfin.
  - apply isnan_add_l, isnan_add_r, isnan_mul_l, isnan_div_nonfinite;
      auto 10 with nonfin.
  - apply isnan_add_l, isnan_add_l, isnan_mul_l, isnan_div_nonfinite;
      auto 10 with nonfin.
  - apply isnan_add_l, isnan_add_l, isnan_mul_l, isnan_div_nonfinite;
      auto 10 with nonfin.
  - apply isnan_add_l, isnan_add_r, isnan_mul_l, isnan_div_nonfinite;
      auto 10 with nonfin.
  - apply isnan_add_l, isnan_add_l, isnan_mul_l, isnan_div_nonfinite;
      auto 10 with nonfin.
  - apply isnan_add_l, isnan_add_l, isnan_mul_l, isnan_div_nonfinite;
      auto 10 with nonfin.
  - apply isnan_add_l, isnan_add_r, isnan_mul_l, isnan_div_nonfinite;
      auto 10 with nonfin.
  - apply isnan_add_l, isnan_add_l, isnan_mul_l, isnan_div_nonfinite;
      auto 10 with nonfin.
  - apply isnan_add_l, isnan_add_l, isnan_mul_l, isnan_div_nonfinite;
      auto 10 with nonfin.
Qed.

Lemma nonfinite_input_3d_witness :
  has_nonfinite3 (Float3 (f32 0) (f32 0) (S754_infinity false)) = true /\
  isnan (line2tri3d (v3 0 0 0) (Float3 (f32 0) (f32 0) (S754_infinity false))
           (v3 (-1) (-1) 1) (v3 1 (-1) 1) (v3 0 1 1)) = true.
Proof.
  split; [reflexivity|].
  apply (nonfinite_input_3d (v3 0 0 0)
           (Float3 (f32 0) (f32 0) (S754_infinity false))
           (v3 (-1) (-1) 1) (v3 1 (-1) 1) (v3 0 1 1)).
  reflexivity.
Defined.

Lemma is_zero_zero_or_nan (a : spec_float) : is_zero a = true -> zero_or_nan a = true.
Proof. destruct a; try discriminate; reflexivity. Qed.

Lemma zero_or_nan_mul_l (a b : spec_float) :
  zero_or_nan a = true -> zero_or_nan (fmul a b) = true.
Proof. destruct a; try discriminate; destruct b; reflexivity. Qed.

Lemma fmul_comm (a b : spec_float) : fmul a b = fmul b a.
Proof.
  destruct a as [sa|sa| |sa ma ea], b as [sb|sb| |sb mb eb]; cbn [fmul binary32 SFmul];
    try reflexivity; try (now rewrite xorb_comm).
  now rewrite xorb_comm, Pos.mul_comm, Z.add_comm.
Qed.

Create HintDb zn discriminated.
#[export] Hint Resolve zero_or_nan_mul_l zero_or_nan_mul_r zero_or_nan_sub
  zero_or_nan_add zero_or_nan_sub_diag is_zero_zero_or_nan : zn.

(** X1.  A ray whose direction is the zero vector (zeros of either sign)
    gets NaN from both functions, whatever the other arguments. *)
Theorem zero_direction_returns_nan :
  (forall origin direction p0 p1 : float2 spec_float,
     zero2 direction = true ->
     isnan (line2seg2d origin direction p0 p1) = true) /\
  (forall origin direction p0 p1 p2 : float3 spec_float,
     zero3 direction = true ->
     isnan (line2tri3d origin direction p0 p1 p2) = true).
Proof.
  split.
  - intros origin direction p0 p1 H. unfold zero2 in H.
    apply andb_prop in H. destruct H as [Hx Hy].
    apply seg_zero_or_nan_det. unfold seg_det. auto 6 with zn.
  - intros origin direction p0 p1 p2 H. unfold zero3 in H.
    apply andb_prop in H. destruct H as [H Hz].
    apply andb_prop in H. destruct H as [Hx Hy].
    apply tri_zero_or_nan_det. unfold tri_det. auto 6 with zn.
Qed.

Lemma zero_direction_returns_nan_witness :
  (zero2 (v2 0 0) = true /\
   isnan (line2seg2d (v2 0 0) (v2 0 0) (v2 2 (-1)) (v2 2 1)) = true) /\
  (zero3 (Float3 (f32 0) (S754_zero true) (f32 0)) = true /\
   isnan (line2tri3d (v3 0 0 0) (Float3 (f32 0) (S754_zero true) (f32 0))
            (v3 (-1) (-1) 1) (v3 1 (-1) 1) (v3 0 1 1)) = true).
Proof.
  split; (split; [reflexivity|]).
  - apply (proj1 zero_direction_returns_nan
             (v2 0 0) (v2 0 0) (v2 2 (-1)) (v2 2 1)). reflexivity.
  - apply (proj2 zero_direction_returns_nan (v3 0 0 0)
             (Float3 (f32 0) (S754_zero true) (f32 0))
             (v3 (-1) (-1) 1) (v3 1 (-1) 1) (v3 0 1 1)). reflexivity.
Defined.

(** The difference of two coinciding points has zero or NaN components. *)
Lemma coincide3_sub (p q : float3 spec_float) :
  coincide3 p q ->
  zero_or_nan (x3 (sub3 p q)) = true /\
  zero_or_nan (y3 (sub3 p q)) = true /\
  zero_or_nan (z3 (sub3 p q)) = true.
Proof.
  unfold sub3; cbn [x3 y3 z3]. intros [->|(Hx & Hy & Hz)].
  - repeat split; apply zero_or_nan_sub_diag.
  - repeat split; now apply zero_or_nan_sub_eqb.
Qed.

Lemma coincide_sub (p q : float2 spec_float) :
  coincide p q ->
  zero_or_nan (x2 (sub2 p q)) = true /\ zero_or_nan (y2 (sub2 p q)) = true.
Proof.
  unfold sub2; cbn [x2 y2]. intros [->|(Hx & Hy)].
  - split; apply zero_or_nan_sub_diag.
  - split; now apply zero_or_nan_sub_eqb.
Qed.

(** A returned value is [NAN] or [res.s0]. *)
Lemma seg_result_zero_or_nan (origin direction p0 p1 : float2 spec_float) :
  zero_or_nan (x2 (seg_res origin direction p0 p1)) = true ->
  zero_or_nan (line2seg2d origin direction p0 p1) = true.
Proof.
  intros H. destruct (line2seg2d_cases origin direction p0 p1) as [E|(_ & _ & E)];
    rewrite E; [reflexivity | exact H].
Qed.

Lemma tri_result_zero_or_nan (origin direction p0 p1 p2 : float3 spec_float) :
  zero_or_nan (x3 (tri_res origin direction p0 p1 p2)) = true ->
  zero_or_nan (line2tri3d origin direction p0 p1 p2) = true.
Proof.
  intros H. destruct (line2tri3d_cases origin direction p0 p1 p2) as [E|(_ & _ & E)];
    rewrite E; [reflexivity | exact H].
Qed.

(** X4.  A ray whose origin is the vertex [p0] never gets a non-zero
    parameter: the result of either function is a zero or NaN. *)
Theorem ray_from_first_vertex :
  (forall origin direction p0 p1 : float2 spec_float,
     coincide p0 origin ->
     zero_or_nan (line2seg2d origin direction p0 p1) = true) /\
  (forall origin direction p0 p1 p2 : float3 spec_float,
     coincide3 p0 origin ->
     zero_or_nan (line2tri3d origin direction p0 p1 p2) = true).
Proof.
  split.
  - intros origin direction p0 p1 H.
    destruct (coincide_sub _ _ H) as [Hx Hy].
    apply seg_result_zero_or_nan. unfold seg_res, dot2; cbn [x2 y2].
    auto with zn.
  - intros origin direction p0 p1 p2 H.
    destruct (coincide3_sub _ _ H) as (Hx & Hy & Hz).
    apply tri_result_zero_or_nan. unfold tri_res, dot3; cbn [x3 y3 z3].
    auto with zn.
Qed.

Lemma ray_from_first_vertex_witness :
  (coincide (v2 2 (-1)) (v2 2 (-1)) /\
   zero_or_nan (line2seg2d (v2 2 (-1)) (v2 1 0) (v2 2 (-1)) (v2 2 1)) = true) /\
  (coincide3 (v3 (-1) (-1) 1) (v3 (-1) (-1) 1) /\
   zero_or_nan (line2tri3d (v3 (-1) (-1) 1) (v3 0 0 1)
                  (v3 (-1) (-1) 1) (v3 1 (-1) 1) (v3 0 1 1)) = true).
Proof.
  split; (split; [left; reflexivity|]).
  - apply (proj1 ray_from_first_vertex (v2 2 (-1)) (v2 1 0)
             (v2 2 (-1)) (v2 2 1)).
    left; reflexivity.
  - apply (proj2 ray_from_first_vertex (v3 (-1) (-1) 1) (v3 0 0 1)
             (v3 (-1) (-1) 1) (v3 1 (-1) 1) (v3 0 1 1)).
    left; reflexivity.
Defined.

(** X5.  A triangle two of whose vertices coincide gets NaN from
    [line2tri3d], for every ray. *)
Theorem coincident_vertices_return_nan :
  forall origin direction p0 p1 p2 : float3 spec_float,
    coincide3 p0 p1 \/ coincide3 p0 p2 \/ p1 = p2 ->
    isnan (line2tri3d origin direction p0 p1 p2) = true.
Proof.
  intros origin direction p0 p1 p2 [H|[H| ->]]; apply tri_zero_or_nan_det; unfold tri_det.
  - destruct (coincide3_sub _ _ H) as (Hx & Hy & Hz). auto 7 with zn.
  - destruct (coincide3_sub _ _ H) as (Hx & Hy & Hz). auto 7 with zn.
  - set (A := sub3 p0 p2).
    rewrite (fmul_comm (z3 A) (y3 A)), (fmul_comm (z3 A) (x3 A)),
      (fmul_comm (y3 A) (x3 A)).
    auto 7 with zn.
Qed.

Lemma coincident_vertices_return_nan_witness :
  (coincide3 (v3 0 0 1) (v3 0 0 1) \/ coincide3 (v3 0 0 1) (v3 1 0 1) \/
   v3 0 0 1 = v3 1 0 1) /\
  isnan (line2tri3d (v3 0 0 0) (v3 0 0 1) (v3 0 0 1) (v3 0 0 1) (v3 1 0 1)) = true.
Proof.
  split; [left; left; reflexivity|].
  apply (coincident_vertices_return_nan (v3 0 0 0) (v3 0 0 1)
           (v3 0 0 1) (v3 0 0 1) (v3 1 0 1)).
  left; left; reflexivity.
Defined.

(** ** Single precision: symmetries that rounding keeps *)

(** Rounding to nearest is symmetric: the sign passes through it. *)
Lemma round_aux_negb s m e l :
  binary_round_aux prec emax (negb s) m e l
  = SFopp (binary_round_aux prec emax s m e l).
Proof.
  unfold binary_round_aux.
  destruct (shr_fexp prec emax m e l) as [mrs' e'].
  destruct (shr_fexp prec emax _ e' loc_Exact) as [mrs'' e''].
  destruct (shr_m mrs''); try reflexivity.
  destruct (Z.leb e'' (emax - prec)); reflexivity.
Qed.

Lemma round_negb s m e :
  binary_round prec emax (negb s) m e = SFopp (binary_round prec emax s m e).
Proof.
  unfold binary_round.
  destruct (shl_align m e _) as [mz ez]. apply round_aux_negb.
Qed.

Lemma normalize_opp z e :
  opposite (binary_normalize prec emax z e false)
           (binary_normalize prec emax (- z) e false).
Proof.
  destruct z as [|p|p]; cbn [Z.opp binary_normalize].
  - right. split; reflexivity.
  - left. apply (round_negb false).
  - left. change (binary_round prec emax false p e)
      with (binary_round prec emax (negb true) p e).
    rewrite round_negb. cbn [fneg binary32].
    now destruct (binary_round prec emax true p e) as [[]|[]| |[] ? ?].
Qed.

Lemma cond_Zopp_negb s z : cond_Zopp (negb s) z = (- cond_Zopp s z)%Z.
Proof. destruct s; cbn; lia. Qed.

(** Negating an operand negates a product or quotient exactly, and a sum
    or difference up to the sign of a zero result. *)
Lemma fmul_fneg_l (a b : spec_float) : fmul (fneg a) b = fneg (fmul a b).
Proof.
  destruct a as [sa|sa| |sa ma ea], b as [sb|sb| |sb mb eb];
    cbn [fmul fneg binary32 SFmul SFopp]; try reflexivity;
    try (now destruct sa, sb).
  rewrite <- round_aux_negb. now destruct sa, sb.
Qed.

Lemma fdiv_fneg_r (a b : spec_float) : fdiv a (fneg b) = fneg (fdiv a b).
Proof.
  destruct a as [sa|sa| |sa ma ea], b as [sb|sb| |sb mb eb];
    cbn [fdiv fneg binary32 SFdiv SFopp]; try reflexivity;
    try (now destruct sa, sb).
  destruct (SFdiv_core_binary prec emax (Z.pos ma) ea (Z.pos mb) eb) as [[mz ez] lz].
  rewrite <- round_aux_negb. now destruct sa, sb.
Qed.

Lemma opposite_fneg (a : spec_float) : opposite a (fneg a).
Proof. now left. Qed.

Lemma fadd_fneg (a b : spec_float) :
  opposite (fadd a b) (fadd (fneg a) (fneg b)).
Proof.
  destruct a as [sa|sa| |sa ma ea], b as [sb|sb| |sb mb eb];
    cbn [fadd fneg binary32 SFadd SFopp];
    try (left; reflexivity);
    try (destruct sa, sb; (left; reflexivity) || (right; split; reflexivity)).
  rewrite !cond_Zopp_negb, <- Z.opp_add_distr. apply normalize_opp.
Qed.

Lemma fsub_fneg (a b : spec_float) :
  opposite (fsub a b) (fsub (fneg a) (fneg b)).
Proof.
  destruct a as [sa|sa| |sa ma ea], b as [sb|sb| |sb mb eb];
    cbn [fsub fneg binary32 SFsub SFopp];
    try (left; reflexivity);
    try (destruct sa, sb; (left; reflexivity) || (right; split; reflexivity)).
  rewrite !cond_Zopp_negb.
  replace (- cond_Zopp sa (Z.pos (fst (shl_align ma ea (Z.min ea eb))))
           - - cond_Zopp sb (Z.pos (fst (shl_align mb eb (Z.min ea eb)))))%Z
    with (- (cond_Zopp sa (Z.pos (fst (shl_align ma ea (Z.min ea eb))))
             - cond_Zopp sb (Z.pos (fst (shl_align mb eb (Z.min ea eb))))))%Z by lia.
  apply normalize_opp.
Qed.

Lemma is_zero_inv (a : spec_float) : is_zero a = true -> exists s, a = S754_zero s.
Proof. destruct a; try discriminate. now eexists. Qed.

Lemma opposite_fadd (a a' b b' : spec_float) :
  opposite a a' -> opposite b b' -> opposite (fadd a b) (fadd a' b').
Proof.
  intros [->|[Ha Ha']] [->|[Hb Hb']].
  - apply fadd_fneg.
  - apply is_zero_inv in Hb, Hb'. destruct Hb as [sb ->], Hb' as [sb' ->].
    destruct a as [sa|sa| |sa ma ea]; try (left; reflexivity).
    right. destruct sa, sb, sb'; split; reflexivity.
  - apply is_zero_inv in Ha, Ha'. destruct Ha as [sa ->], Ha' as [sa' ->].
    destruct b as [sb|sb| |sb mb eb]; try (left; reflexivity).
    right. destruct sa, sa', sb; split; reflexivity.
  - apply is_zero_inv in Ha, Ha', Hb, Hb'.
    destruct Ha as [sa ->], Ha' as [sa' ->], Hb as [sb ->], Hb' as [sb' ->].
    right. destruct sa, sa', sb, sb'; split; reflexivity.
Qed.

Lemma opposite_nonzero (a b : spec_float) :
  opposite a b -> feq a fzero = false -> b = fneg a.
Proof.
  intros [->|[Ha _]] H; [reflexivity|].
  apply is_zero_inv in Ha. destruct Ha as [s ->]. discriminate H.
Qed.

Lemma leb_zero_fneg (a : spec_float) :
  fle fzero a = true -> feq a fzero = false -> fle fzero (fneg a) = false.
Proof. destruct a as [s|[]| |[] m e]; try discriminate; reflexivity. Qed.

(** A [k] that fails [0 <= k] makes the call return NaN. *)
Lemma seg_rejected (origin direction p0 p1 : float2 spec_float) :
  fle fzero (x2 (seg_res origin direction p0 p1)) = false ->
  isnan (line2seg2d origin direction p0 p1) = true.
Proof.
  intros H. rewrite line2seg2d_eq.
  destruct (feq (seg_det direction p0 p1) fzero); [reflexivity|].
  unfold seg_accept. rewrite H. reflexivity.
Qed.

Lemma tri_rejected (origin direction p0 p1 p2 : float3 spec_float) :
  fle fzero (x3 (tri_res origin direction p0 p1 p2)) = false ->
  isnan (line2tri3d origin direction p0 p1 p2) = true.
Proof.
  intros H. rewrite line2tri3d_eq.
  destruct (feq (tri_det direction p0 p1 p2) fzero); [reflexivity|].
  unfold tri_accept. rewrite H. reflexivity.
Qed.

(** Reversing the direction negates the determinant and [k]. *)
Lemma seg_det_neg (direction p0 p1 : float2 spec_float) :
  opposite (seg_det direction p0 p1) (seg_det (neg2 direction) p0 p1).
Proof.
  unfold seg_det, neg2; cbn [x2 y2]. rewrite !fmul_fneg_l. apply fsub_fneg.
Qed.

Lemma seg_k_neg (origin direction p0 p1 : float2 spec_float) :
  feq (seg_det direction p0 p1) fzero = false ->
  opposite (x2 (seg_res origin direction p0 p1))
           (x2 (seg_res origin (neg2 direction) p0 p1)).
Proof.
  intros Hdet. unfold seg_res.
  rewrite (opposite_nonzero _ _ (seg_det_neg direction p0 p1) Hdet).
  unfold dot2, divs2; cbn [x2 y2].
  rewrite !fdiv_fneg_r, !fmul_fneg_l. apply fadd_fneg.
Qed.

(** X6.  When [line2seg2d] returns a non-zero parameter for a ray, it
    returns NaN for the ray from the same origin in the opposite
    direction. *)
Theorem reversed_ray_2d :
  forall origin direction p0 p1 : float2 spec_float,
    isnan (line2seg2d origin direction p0 p1) = false ->
    feq (line2seg2d origin direction p0 p1) fzero = false ->
    isnan (line2seg2d origin (neg2 direction) p0 p1) = true.
Proof.
  intros origin direction p0 p1 Hret Hpos.
  destruct (returned_seg origin direction p0 p1 Hret) as (Hdet & Hacc & E).
  rewrite E in Hpos. apply seg_accept_inv in Hacc. destruct Hacc as (Hk & _).
  apply seg_rejected.
  rewrite (opposite_nonzero _ _ (seg_k_neg origin direction p0 p1 Hdet) Hpos).
  now apply leb_zero_fneg.
Qed.

Lemma reversed_ray_2d_witness :
  isnan (line2seg2d (v2 0 0) (v2 1 0) (v2 2 (-1)) (v2 2 1)) = false /\
  feq (line2seg2d (v2 0 0) (v2 1 0) (v2 2 (-1)) (v2 2 1)) fzero = false /\
  isnan (line2seg2d (v2 0 0) (neg2 (v2 1 0)) (v2 2 (-1)) (v2 2 1)) = true.
Proof.
  split; [reflexivity|]. split; [reflexivity|].
  apply (reversed_ray_2d (v2 0 0) (v2 1 0) (v2 2 (-1)) (v2 2 1)); reflexivity.
Defined.

Lemma tri_det_neg (direction p0 p1 p2 : float3 spec_float) :
  opposite (tri_det direction p0 p1 p2) (tri_det (neg3 direction) p0 p1 p2).
Proof.
  unfold tri_det, neg3; cbn [x3 y3 z3]. rewrite !fmul_fneg_l.
  apply opposite_fadd; [apply fsub_fneg | apply opposite_fneg].
Qed.

Lemma tri_k_neg (origin direction p0 p1 p2 : float3 spec_float) :
  feq (tri_det direction p0 p1 p2) fzero = false ->
  opposite (x3 (tri_res origin direction p0 p1 p2))
           (x3 (tri_res origin (neg3 direction) p0 p1 p2)).
Proof.
  intros Hdet. unfold tri_res.
  rewrite (opposite_nonzero _ _ (tri_det_neg direction p0 p1 p2) Hdet).
  unfold dot3, divs3; cbn [x3 y3 z3].
  rewrite !fdiv_fneg_r, !fmul_fneg_l.
  apply opposite_fadd; [apply fadd_fneg | apply opposite_fneg].
Qed.

(** X7.  When [line2tri3d] returns a non-zero parameter for a ray, it
    returns NaN for the ray from the same origin in the opposite
    direction. *)
Theorem reversed_ray_3d :
  forall origin direction p0 p1 p2 : float3 spec_float,
    isnan (line2tri3d origin direction p0 p1 p2) = false ->
    feq (line2tri3d origin direction p0 p1 p2) fzero = false ->
    isnan (line2tri3d origin (neg3 direction) p0 p1 p2) = true.
Proof.
  intros origin direction p0 p1 p2 Hret Hpos.
  destruct (returned_tri origin direction p0 p1 p2 Hret) as (Hdet & Hacc & E).
  rewrite E in Hpos. apply tri_accept_inv in Hacc. destruct Hacc as (Hk & _).
  apply tri_rejected.
  rewrite (opposite_nonzero _ _ (tri_k_neg origin direction p0 p1 p2 Hdet) Hpos).
  now apply leb_zero_fneg.
Qed.

Lemma reversed_ray_3d_witness :
  isnan (line2tri3d (v3 0 0 0) (v3 0 0 1)
           (v3 (-1) (-1) 1) (v3 1 (-1) 1) (v3 0 1 1)) = false /\
  feq (line2tri3d (v3 0 0 0) (v3 0 0 1)
         (v3 (-1) (-1) 1) (v3 1 (-1) 1) (v3 0 1 1)) fzero = false /\
  isnan (line2tri3d (v3 0 0 0) (neg3 (v3 0 0 1))
           (v3 (-1) (-1) 1) (v3 1 (-1) 1) (v3 0 1 1)) = true.
Proof.
  split; [reflexivity|]. split; [reflexivity|].
  apply (reversed_ray_3d (v3 0 0 0) (v3 0 0 1)
           (v3 (-1) (-1) 1) (v3 1 (-1) 1) (v3 0 1 1)); reflexivity.
Defined.

Lemma fmul_fneg_r (a b : spec_float) : fmul a (fneg b) = fneg (fmul a b).
Proof. now rewrite fmul_comm, fmul_fneg_l, fmul_comm. Qed.

Lemma fsub_swap (a b : spec_float) : opposite (fsub a b) (fsub b a).
Proof.
  destruct a as [sa|sa| |sa ma ea], b as [sb|sb| |sb mb eb];
    cbn [fsub fneg binary32 SFsub SFopp];
    try (left; reflexivity);
    try (destruct sa, sb; (left; reflexivity) || (right; split; reflexivity)).
  rewrite (Z.min_comm eb ea).
  replace (cond_Zopp sb (Z.pos (fst (shl_align mb eb (Z.min ea eb))))
           - cond_Zopp sa (Z.pos (fst (shl_align ma ea (Z.min ea eb)))))%Z
    with (- (cond_Zopp sa (Z.pos (fst (shl_align ma ea (Z.min ea eb))))
             - cond_Zopp sb (Z.pos (fst (shl_align mb eb (Z.min ea eb))))))%Z by lia.
  apply normalize_opp.
Qed.

Lemma opposite_fmul_r (d a a' : spec_float) :
  opposite a a' -> opposite (fmul d a) (fmul d a').
Proof.
  intros [->|[Ha Ha']].
  - left. apply fmul_fneg_r.
  - apply is_zero_inv in Ha, Ha'. destruct Ha as [s ->], Ha' as [s' ->].
    destruct d as [sd|sd| |sd md ed]; try (left; reflexivity);
      right; split; reflexivity.
Qed.

Lemma opposite_fsub (a a' b b' : spec_float) :
  opposite a a' -> opposite b b' -> opposite (fsub a b) (fsub a' b').
Proof.
  intros [->|[Ha Ha']] [->|[Hb Hb']].
  - apply fsub_fneg.
  - apply is_zero_inv in Hb, Hb'. destruct Hb as [sb ->], Hb' as [sb' ->].
    destruct a as [sa|sa| |sa ma ea]; try (left; reflexivity).
    right. destruct sa, sb, sb'; split; reflexivity.
  - apply is_zero_inv in Ha, Ha'. destruct Ha as [sa ->], Ha' as [sa' ->].
    destruct b as [sb|sb| |sb mb eb]; try (left; reflexivity).
    right. destruct sa, sa', sb; split; reflexivity.
  - apply is_zero_inv in Ha, Ha', Hb, Hb'.
    destruct Ha as [sa ->], Ha' as [sa' ->], Hb as [sb ->], Hb' as [sb' ->].
    right. destruct sa, sa', sb, sb'; split; reflexivity.
Qed.

Lemma opposite_feq_zero (a b : spec_float) :
  opposite a b -> feq b fzero = feq a fzero.
Proof.
  intros [->|[Ha Hb]].
  - now destruct a as [[]|[]| |[] m e].
  - apply is_zero_inv in Ha, Hb. destruct Ha as [s ->], Hb as [s' ->]. reflexivity.
Qed.

(** X8.  In single precision the outcome of the test [det == 0] does not
    depend on the order of the segment's endpoints, on the order of the
    triangle's vertices [p1] and [p2], or on the sense of the direction:
    those changes negate the determinant, up to the sign of a zero. *)
Theorem singular_test_symmetric :
  (forall direction p0 p1 : float2 spec_float,
     feq (seg_det direction p1 p0) fzero = feq (seg_det direction p0 p1) fzero /\
     feq (seg_det (neg2 direction) p0 p1) fzero
       = feq (seg_det direction p0 p1) fzero) /\
  (forall direction p0 p1 p2 : float3 spec_float,
     feq (tri_det direction p0 p2 p1) fzero
       = feq (tri_det direction p0 p1 p2) fzero /\
     feq (tri_det (neg3 direction) p0 p1 p2) fzero
       = feq (tri_det direction p0 p1 p2) fzero).
Proof.
  split.
  - intros direction p0 p1. split; apply opposite_feq_zero.
    + unfold seg_det, sub2; cbn [x2 y2].
      apply opposite_fsub; apply opposite_fmul_r, fsub_swap.
    + apply seg_det_neg.
  - intros direction p0 p1 p2. split; apply opposite_feq_zero.
    + unfold tri_det. set (A1 := sub3 p0 p1). set (A2 := sub3 p0 p2).
      rewrite (fmul_comm (y3 A2) (z3 A1)), (fmul_comm (z3 A2) (y3 A1)),
        (fmul_comm (x3 A2) (z3 A1)), (fmul_comm (z3 A2) (x3 A1)),
        (fmul_comm (x3 A2) (y3 A1)), (fmul_comm (y3 A2) (x3 A1)).
      apply opposite_fadd; [apply opposite_fsub|];
        apply opposite_fmul_r, fsub_swap.
    + apply tri_det_neg.
Qed.

(** ** Exact arithmetic: what the two functions compute *)

(** X9.  With exact operations and a determinant that is not zero,
    [line2seg2d] returns [k] exactly when the ray hits the segment at
    parameter [k]: it reports every hit and nothing else. *)
Theorem exact_hits_2d :
  forall (origin direction p0 p1 : float2 Q) (k : Q),
    feq (seg_det (inj2 direction) (inj2 p0) (inj2 p1)) fzero = false ->
    (returns (line2seg2d (inj2 origin) (inj2 direction) (inj2 p0) (inj2 p1)) k
     <-> hit2d origin direction p0 p1 k).
Proof.
  intros origin direction p0 p1 k Hdet.
  destruct (exact_solution_2d origin direction p0 p1 Hdet)
    as (k0 & l0 & Hres & Hsol & Huniq & Hret).
  split.
  - unfold returns.
    destruct (line2seg2d (inj2 origin) (inj2 direction) (inj2 p0) (inj2 p1))
      as [r|]; [|contradiction].
    intros Hr. destruct (Hret r eq_refl) as (-> & Hk & Hl0 & Hl1).
    split; [now rewrite <- Hr|].
    exists l0. repeat split; try assumption.
    + destruct Hsol as [E _]. now rewrite <- Hr.
    + destruct Hsol as [_ E]. now rewrite <- Hr.
  - intros (Hk & l & Hl0 & Hl1 & Hs).
    destruct (Huniq k l Hs) as [Ek El].
    rewrite (line2seg2d_accepted _ _ _ _ Hdet).
    + rewrite Hres. cbn [x2 returns]. now symmetry.
    + rewrite Hres. unfold seg_accept, between. cbn [x2 y2 fle fzero fone exactQ xtest].
      rewrite !andb_true_iff, !Qle_bool_iff. rewrite <- Ek, <- El. tauto.
Qed.

Lemma exact_hits_2d_witness :
  feq (seg_det (inj2 (q2 1 0)) (inj2 (q2 2 (-1))) (inj2 (q2 2 1))) fzero = false /\
  (returns (line2seg2d (inj2 (q2 0 0)) (inj2 (q2 1 0))
              (inj2 (q2 2 (-1))) (inj2 (q2 2 1))) 2
   <-> hit2d (q2 0 0) (q2 1 0) (q2 2 (-1)) (q2 2 1) 2).
Proof.
  split; [vm_compute; reflexivity|].
  apply (exact_hits_2d (q2 0 0) (q2 1 0) (q2 2 (-1)) (q2 2 1) 2).
  vm_compute; reflexivity.
Defined.

(** X10.  With exact operations and a determinant that is not zero,
    [line2tri3d] returns [k] exactly when the ray hits the triangle at
    parameter [k]. *)
Theorem exact_hits_3d :
  forall (origin direction p0 p1 p2 : float3 Q) (k : Q),
    feq (tri_det (inj3 direction) (inj3 p0) (inj3 p1) (inj3 p2)) fzero = false ->
    (returns (line2tri3d (inj3 origin) (inj3 direction)
                (inj3 p0) (inj3 p1) (inj3 p2)) k
     <-> hit3d origin direction p0 p1 p2 k).
Proof.
  intros origin direction p0 p1 p2 k Hdet.
  destruct (exact_solution_3d origin direction p0 p1 p2 Hdet)
    as (k0 & l0 & m0 & Hres & Hsol & Huniq & Hret).
  split.
  - unfold returns.
    destruct (line2tri3d (inj3 origin) (inj3 direction) (inj3 p0) (inj3 p1) (inj3 p2))
      as [r|]; [|contradiction].
    intros Hr. destruct (Hret r eq_refl) as (-> & Hk & Hb).
    split; [now rewrite <- Hr|].
    exists l0, m0. repeat split; try tauto.
    + destruct Hsol as (E & _ & _). now rewrite <- Hr.
    + destruct Hsol as (_ & E & _). now rewrite <- Hr.
    + destruct Hsol as (_ & _ & E). now rewrite <- Hr.
  - intros (Hk & l & m & Hl0 & Hl1 & Hm0 & Hm1 & Hs0 & Hs1 & Hs).
    destruct (Huniq k l m Hs) as (Ek & El & Em).
    rewrite (line2tri3d_accepted _ _ _ _ _ Hdet).
    + rewrite Hres. cbn [x3 returns]. now symmetry.
    + rewrite Hres. unfold tri_accept, between.
      cbn [x3 y3 z3 fle fadd fzero fone exactQ xtest xlift2].
      rewrite !andb_true_iff, !Qle_bool_iff. rewrite <- Ek, <- El, <- Em. tauto.
Qed.

Lemma exact_hits_3d_witness :
  feq (tri_det (inj3 (q3 0 0 1)) (inj3 (q3 (-1) (-1) 1))
         (inj3 (q3 1 (-1) 1)) (inj3 (q3 0 1 1))) fzero = false /\
  (returns (line2tri3d (inj3 (q3 0 0 0)) (inj3 (q3 0 0 1))
              (inj3 (q3 (-1) (-1) 1)) (inj3 (q3 1 (-1) 1)) (inj3 (q3 0 1 1))) 1
   <-> hit3d (q3 0 0 0) (q3 0 0 1) (q3 (-1) (-1) 1) (q3 1 (-1) 1) (q3 0 1 1) 1).
Proof.
  split; [vm_compute; reflexivity|].
  apply (exact_hits_3d (q3 0 0 0) (q3 0 0 1) (q3 (-1) (-1) 1)
           (q3 1 (-1) 1) (q3 0 1 1) 1).
  vm_compute; reflexivity.
Defined.

Lemma Qeq_bool_opp (a b : Q) : a == - b -> Qeq_bool a 0 = Qeq_bool b 0.
Proof.
  intros H. apply eq_true_iff_eq. rewrite !Qeq_bool_iff. split; intros E; lra.
Qed.

Lemma Qeq_bool_scale (c a b : Q) :
  0 < c -> a == c * b -> Qeq_bool a 0 = Qeq_bool b 0.
Proof.
  intros Hc H. apply eq_true_iff_eq. rewrite !Qeq_bool_iff. split; intros E.
  - rewrite E in H. symmetry in H. apply Qmult_integral in H. destruct H; lra.
  - rewrite H, E. ring.
Qed.

Lemma returns_xeq (r r' : xQ) :
  (forall k, returns r' k <-> returns r k) -> xeq r' r.
Proof.
  intros H. destruct r as [u|], r' as [u'|]; cbn [xeq].
  - apply (proj2 (H u)). cbn. reflexivity.
  - exact (proj2 (H u) (Qeq_refl u)).
  - exact (proj1 (H u') (Qeq_refl u')).
  - exact I.
Qed.

(** X11.  With exact operations, swapping the vertices [p1] and [p2] of
    the triangle does not change the result of [line2tri3d]. *)
Theorem swap_vertices_exact :
  forall origin direction p0 p1 p2 : float3 Q,
    xeq (line2tri3d (inj3 origin) (inj3 direction) (inj3 p0) (inj3 p2) (inj3 p1))
        (line2tri3d (inj3 origin) (inj3 direction) (inj3 p0) (inj3 p1) (inj3 p2)).
Proof.
  intros origin direction p0 p1 p2.
  assert (Hd : feq (tri_det (inj3 direction) (inj3 p0) (inj3 p2) (inj3 p1)) fzero
               = feq (tri_det (inj3 direction) (inj3 p0) (inj3 p1) (inj3 p2)) fzero).
  { destruct direction, p0, p1, p2. unfold tri_det, inj3, sub3. exact_ops.
    apply Qeq_bool_opp. ring. }
  destruct (feq (tri_det (inj3 direction) (inj3 p0) (inj3 p1) (inj3 p2)) fzero) eqn:Hdet.
  - rewrite (line2tri3d_singular _ _ _ _ _ Hd), (line2tri3d_singular _ _ _ _ _ Hdet).
    exact I.
  - apply returns_xeq. intros k.
    rewrite (exact_hits_3d origin direction p0 p2 p1 k Hd),
      (exact_hits_3d origin direction p0 p1 p2 k Hdet).
    unfold hit3d, solves3d.
    split; intros (Hk & l & m & H1 & H2 & H3 & H4 & H5 & H6 & E1 & E2 & E3);
      (split; [exact Hk|]); exists m, l; repeat split; lra.
Qed.

(** X12.  With exact operations, multiplying the direction by [c > 0]
    divides the returned parameter by [c], and keeps NaN results NaN:
    the direction need not be normalised. *)
Theorem scaled_direction_exact :
  (forall (origin direction p0 p1 : float2 Q) (c k : Q),
     0 < c ->
     (returns (line2seg2d (inj2 origin) (inj2 (scale2 c direction))
                 (inj2 p0) (inj2 p1)) k
      <-> returns (line2seg2d (inj2 origin) (inj2 direction)
                     (inj2 p0) (inj2 p1)) (c * k))) /\
  (forall (origin direction p0 p1 p2 : float3 Q) (c k : Q),
     0 < c ->
     (returns (line2tri3d (inj3 origin) (inj3 (scale3 c direction))
                 (inj3 p0) (inj3 p1) (inj3 p2)) k
      <-> returns (line2tri3d (inj3 origin) (inj3 direction)
                     (inj3 p0) (inj3 p1) (inj3 p2)) (c * k))).
Proof.
  split.
  - intros origin direction p0 p1 c k Hc.
    assert (Hd : feq (seg_det (inj2 (scale2 c direction)) (inj2 p0) (inj2 p1)) fzero
                 = feq (seg_det (inj2 direction) (inj2 p0) (inj2 p1)) fzero).
    { destruct direction, p0, p1. unfold seg_det, inj2, scale2, sub2. exact_ops.
      apply (Qeq_bool_scale c); [exact Hc | ring]. }
    destruct (feq (seg_det (inj2 direction) (inj2 p0) (inj2 p1)) fzero) eqn:Hdet.
    + rewrite (line2seg2d_singular _ _ _ _ Hd), (line2seg2d_singular _ _ _ _ Hdet).
      reflexivity.
    + rewrite (exact_hits_2d origin (scale2 c direction) p0 p1 k Hd),
        (exact_hits_2d origin direction p0 p1 (c * k) Hdet).
      unfold hit2d, solves2d, scale2; cbn [x2 y2].
      split; intros (Hk & l & H1 & H2 & E1 & E2).
      * split; [nra|]. exists l. repeat split; lra.
      * split; [nra|]. exists l. repeat split; lra.
  - intros origin direction p0 p1 p2 c k Hc.
    assert (Hd : feq (tri_det (inj3 (scale3 c direction))
                        (inj3 p0) (inj3 p1) (inj3 p2)) fzero
                 = feq (tri_det (inj3 direction) (inj3 p0) (inj3 p1) (inj3 p2)) fzero).
    { destruct direction, p0, p1, p2. unfold tri_det, inj3, scale3, sub3. exact_ops.
      apply (Qeq_bool_scale c); [exact Hc | ring]. }
    destruct (feq (tri_det (inj3 direction) (inj3 p0) (inj3 p1) (inj3 p2)) fzero)
      eqn:Hdet.
    + rewrite (line2tri3d_singular _ _ _ _ _ Hd), (line2tri3d_singular _ _ _ _ _ Hdet).
      reflexivity.
    + rewrite (exact_hits_3d origin (scale3 c direction) p0 p1 p2 k Hd),
        (exact_hits_3d origin direction p0 p1 p2 (c * k) Hdet).
      unfold hit3d, solves3d, scale3; cbn [x3 y3 z3].
      split; intros (Hk & l & m & H1 & H2 & H3 & H4 & H5 & H6 & E1 & E2 & E3).
      * split; [nra|]. exists l, m. repeat split; lra.
      * split; [nra|]. exists l, m. repeat split; lra.
Qed.

Lemma scaled_direction_exact_witness :
  0 < 2 /\
  (returns (line2seg2d (inj2 (q2 0 0)) (inj2 (scale2 2 (q2 1 0)))
              (inj2 (q2 2 (-1))) (inj2 (q2 2 1))) 1
   <-> returns (line2seg2d (inj2 (q2 0 0)) (inj2 (q2 1 0))
                  (inj2 (q2 2 (-1))) (inj2 (q2 2 1))) (2 * 1)).
Proof.
  split; [reflexivity|].
  apply (proj1 scaled_direction_exact (q2 0 0) (q2 1 0) (q2 2 (-1)) (q2 2 1) 2 1).
  reflexivity.
Defined.
